(** * The shop's data-access layer (src/db.ts)

    A shallow embedding of the [DB] object of [src/db.ts] and the proofs of
    its specified properties.

    Conventions of the embedding.
    - A JavaScript array is a [list]; [find]/[findIndex] are stdpp's
      [list_find], which returns the first index whose element satisfies the
      predicate together with that element.  The index plays the role of the
      object reference that [find] yields: a field assignment through the
      reference is an [alter] (or an insert) at that index.
    - [localStorage] holds one key.  Its value is kept as the document that
      [JSON.parse] yields for the stored string; [JSON.stringify] followed by
      [JSON.parse] is the identity on documents of the declared types, and
      every call re-parses, so no object is shared between two calls.
    - [number] is [Z]: credits, prices and amounts are whole numbers.  The
      source's numbers are binary64 values; on whole numbers of magnitude at
      most 2^53 whose sum or difference is one too, their [+] and [-] are
      those of [Z], beyond that the source rounds.  A statement whose subject
      is the value of a sum or a difference is made under that proviso
      ([exact]); comparisons, frames and counts need none.
    - [Math.random().toString(36).substring(7)] and [Date.now()] are inputs
      of the operations that call them. *)

From Stdlib Require Import ZArith.
From stdpp Require Import base tactics option list strings.

Local Open Scope string_scope.
Local Open Scope list_scope.
Local Open Scope nat_scope.

(** ** Data model *)

(** Modelled from the spec: [./types] is not part of the sources; the
    enumerations are those of the spec's section on external interfaces. *)
Inductive UserRole := USER | ADMIN.
Inductive ItemType := INSTANT | SEQUENTIAL.
Inductive TransactionStatus := PENDING | APPROVED | REJECTED.
Inductive TicketStatus := OPEN | CLOSED.

#[global] Instance UserRole_eq_dec : EqDecision UserRole.
Proof. solve_decision. Defined.
#[global] Instance ItemType_eq_dec : EqDecision ItemType.
Proof. solve_decision. Defined.
#[global] Instance TransactionStatus_eq_dec : EqDecision TransactionStatus.
Proof. solve_decision. Defined.
#[global] Instance TicketStatus_eq_dec : EqDecision TicketStatus.
Proof. solve_decision. Defined.

(** Modelled from the spec: the record types of [./types], with the
    attributes of the spec's data model table.  Optional fields of the source
    ([item.content || ''], [item.sequentialItems?.find]) are [option]s. *)
Module User.
Record t := mk { id : string; role : UserRole; credits : Z }.
(** [user.credits += amount] and [user.credits -= amount], on whole numbers
    in the range where the source's arithmetic is exact. *)
Definition addCredits (amount : Z) (u : t) : t :=
  mk (id u) (role u) (credits u + amount).
Definition subCredits (amount : Z) (u : t) : t :=
  mk (id u) (role u) (credits u - amount).
End User.

Module SequentialItem.
Record t := mk { content : string; isDelivered : bool }.
Definition deliver (si : t) : t := mk (content si) true.
End SequentialItem.

Module Item.
Record t := mk {
  id : string;
  name : string;
  price : Z;
  type : ItemType;
  content : option string;
  sequentialItems : option (list SequentialItem.t);
  deliveredCount : Z
}.
Definition withStock (units : list SequentialItem.t) (count : Z) (i : t) : t :=
  mk (id i) (name i) (price i) (type i) (content i) (Some units) count.
End Item.

Module Purchase.
Record t := mk {
  id : string;
  userId : string;
  itemId : string;
  itemName : string;
  contentDelivered : string;
  timestamp : Z;
  price : Z
}.
End Purchase.

Module Transaction.
Record t := mk { id : string; userId : string; amount : Z; status : TransactionStatus }.
Definition withStatus (st : TransactionStatus) (tx : t) : t :=
  mk (id tx) (userId tx) (amount tx) st.
End Transaction.

Module RedeemCode.
Record t := mk { code : string; amount : Z; isUsed : bool }.
Definition use (c : t) : t := mk (code c) (amount c) true.
End RedeemCode.

Module TicketMessage.
Record t := mk { content : string; sender : string; timestamp : Z }.
End TicketMessage.

Module Ticket.
Record t := mk {
  id : string;
  messages : list TicketMessage.t;
  status : TicketStatus;
  lastUpdated : Z
}.
Definition pushMessage (m : TicketMessage.t) (now : Z) (tk : t) : t :=
  mk (id tk) (messages tk ++ [m]) (status tk) now.
Definition close (now : Z) (tk : t) : t :=
  mk (id tk) (messages tk) CLOSED now.
End Ticket.

(** [interface DBState] *)
Record DBState := mkDBState {
  users : list User.t;
  items : list Item.t;
  purchases : list Purchase.t;
  transactions : list Transaction.t;
  redeemCodes : list RedeemCode.t;
  tickets : list Ticket.t
}.

Definition withUsers (l : list User.t) (st : DBState) : DBState :=
  mkDBState l (items st) (purchases st) (transactions st) (redeemCodes st) (tickets st).
Definition withItems (l : list Item.t) (st : DBState) : DBState :=
  mkDBState (users st) l (purchases st) (transactions st) (redeemCodes st) (tickets st).
Definition withPurchases (l : list Purchase.t) (st : DBState) : DBState :=
  mkDBState (users st) (items st) l (transactions st) (redeemCodes st) (tickets st).
Definition withTransactions (l : list Transaction.t) (st : DBState) : DBState :=
  mkDBState (users st) (items st) (purchases st) l (redeemCodes st) (tickets st).
Definition withRedeemCodes (l : list RedeemCode.t) (st : DBState) : DBState :=
  mkDBState (users st) (items st) (purchases st) (transactions st) l (tickets st).
Definition withTickets (l : list Ticket.t) (st : DBState) : DBState :=
  mkDBState (users st) (items st) (purchases st) (transactions st) (redeemCodes st) l.

(** ** The backing medium *)

(** [localStorage] restricted to [STORAGE_KEY]: the stored document, if the
    key is present, and the number of [setItem] calls made so far, which is
    what makes a write that stores an equal document observable. *)
Record LocalStorage := mkLocalStorage {
  stored : option DBState;
  setItemCalls : nat
}.

(** Operations run against the backing medium. *)
Definition IO (A : Type) : Type := LocalStorage → A * LocalStorage.

#[global] Instance IO_ret : MRet IO := λ A x ls, (x, ls).
#[global] Instance IO_bind : MBind IO := λ A B f m ls,
  let '(x, ls') := m ls in f x ls'.

Definition getItem : IO (option DBState) := λ ls, (stored ls, ls).
Definition setItem (doc : DBState) : IO unit :=
  λ ls, (tt, mkLocalStorage (Some doc) (S (setItemCalls ls))).

(** The value an operation returns and the medium it leaves. *)
Definition result {A} (m : IO A) (ls : LocalStorage) : A := fst (m ls).
Definition after {A} (m : IO A) (ls : LocalStorage) : LocalStorage := snd (m ls).

Definition emptyState : DBState := mkDBState [] [] [] [] [] [].

(** [getInitialState], lines 19-30. *)
Definition getInitialState : IO DBState :=
  stored ← getItem;
  match stored with
  | Some doc => mret doc
  | None => mret emptyState
  end.

(** [saveState], lines 32-34. *)
Definition saveState (state : DBState) : IO unit := setItem state.

(** The result objects [{ success, content?, error? }] and
    [{ success, amount?, error? }]. *)
Record PurchaseResult := mkPurchaseResult {
  p_success : bool;
  p_content : option string;
  p_error : option string
}.

Record RedeemResult := mkRedeemResult {
  r_success : bool;
  r_amount : option Z;
  r_error : option string
}.

Record VerifyResult := mkVerifyResult {
  v_success : bool;
  v_error : option string
}.

(** ** The [DB] object *)
Module DB.

(** Users *)
Definition getUsers : IO (list User.t) :=
  state ← getInitialState; mret (users state).

Definition addUser (user : User.t) : IO unit :=
  state ← getInitialState;
  saveState (withUsers (users state ++ [user]) state).

Definition verifyUser (token : string) : VerifyResult :=
  if decide (0 < String.length token)
  then mkVerifyResult true None
  else mkVerifyResult false (Some "Invalid or expired verification token").

Definition updateUserCredits (userId : string) (amount : Z) : IO unit :=
  state ← getInitialState;
  match list_find (λ u, User.id u = userId) (users state) with
  | Some (ui, _) =>
      saveState (withUsers (alter (User.addCredits amount) ui (users state)) state)
  | None => saveState state
  end.

(** Items *)
Definition getItems : IO (list Item.t) :=
  state ← getInitialState; mret (items state).

Definition addItem (item : Item.t) : IO unit :=
  state ← getInitialState;
  saveState (withItems (items state ++ [item]) state).

Definition updateItem (item : Item.t) : IO bool :=
  state ← getInitialState;
  match list_find (λ i, Item.id i = Item.id item) (items state) with
  | Some (index, _) =>
      saveState (withItems (<[index := item]> (items state)) state);;
      mret true
  | None => mret false
  end.

Definition deleteItem (itemId : string) : IO unit :=
  state ← getInitialState;
  saveState (withItems (filter (λ i, Item.id i ≠ itemId) (items state)) state).

(** Purchases *)
Definition getPurchases : IO (list Purchase.t) :=
  state ← getInitialState; mret (purchases state).

Definition addPurchase (purchase : Purchase.t) : IO unit :=
  state ← getInitialState;
  saveState (withPurchases (purchases state ++ [purchase]) state).

(** Lines 97-106 of [processPurchase]: the content to deliver and the item
    as the branch leaves it, or [None] where the source returns
    'Out of stock'. *)
Definition takeContent (item : Item.t) : option (string * Item.t) :=
  match Item.type item with
  | INSTANT => Some (default "" (Item.content item), item)
  | SEQUENTIAL =>
      match Item.sequentialItems item with
      | Some units =>
          match list_find (λ si, SequentialItem.isDelivered si = false) units with
          | Some (k, available) =>
              Some (SequentialItem.content available,
                    Item.withStock (alter SequentialItem.deliver k units)
                                   (Item.deliveredCount item + 1) item)
          | None => None
          end
      | None => None
      end
  end.

Definition failed (error : string) : PurchaseResult :=
  mkPurchaseResult false None (Some error).
Definition delivered (content : string) : PurchaseResult :=
  mkPurchaseResult true (Some content) None.

(** [processPurchase], lines 89-121.  [rnd] is the identifier drawn from
    [Math.random] and [now] the value of [Date.now()]. *)
Definition processPurchase (rnd : string) (now : Z) (userId itemId : string)
  : IO PurchaseResult :=
  state ← getInitialState;
  match list_find (λ u, User.id u = userId) (users state),
        list_find (λ i, Item.id i = itemId) (items state) with
  | Some (ui, user), Some (ii, item) =>
      if decide (User.credits user < Item.price item)%Z
      then mret (failed "Insufficient credits")
      else
        match takeContent item with
        | None => mret (failed "Out of stock")
        | Some (content, item') =>
            let purchase :=
              Purchase.mk rnd userId itemId (Item.name item') content now
                          (Item.price item') in
            saveState
              (mkDBState
                 (alter (User.subCredits (Item.price item')) ui (users state))
                 (<[ii := item']> (items state))
                 (purchases state ++ [purchase])
                 (transactions state) (redeemCodes state) (tickets state));;
            mret (delivered content)
        end
  | _, _ => mret (failed "User or Item not found")
  end.

(** Transactions *)
Definition getTransactions : IO (list Transaction.t) :=
  state ← getInitialState; mret (transactions state).

Definition addTransaction (transaction : Transaction.t) : IO unit :=
  state ← getInitialState;
  saveState (withTransactions (transactions state ++ [transaction]) state).

Definition updateTransactionStatus (id : string) (status : TransactionStatus)
  : IO unit :=
  state ← getInitialState;
  match list_find (λ t, Transaction.id t = id) (transactions state) with
  | Some (ti, tx) =>
      let state1 :=
        withTransactions
          (alter (Transaction.withStatus status) ti (transactions state)) state in
      if decide (status = APPROVED) then
        match list_find (λ u, User.id u = Transaction.userId tx) (users state1) with
        | Some (ui, _) =>
            saveState
              (withUsers
                 (alter (User.addCredits (Transaction.amount tx)) ui (users state1))
                 state1)
        | None => saveState state1
        end
      else saveState state1
  | None => saveState state
  end.

(** Redeem codes *)
Definition getRedeemCodes : IO (list RedeemCode.t) :=
  state ← getInitialState; mret (redeemCodes state).

Definition addRedeemCode (code : RedeemCode.t) : IO unit :=
  state ← getInitialState;
  saveState (withRedeemCodes (redeemCodes state ++ [code]) state).

Definition refused (error : string) : RedeemResult :=
  mkRedeemResult false None (Some error).

Definition redeem (userId codeStr : string) : IO RedeemResult :=
  state ← getInitialState;
  match list_find (λ u, User.id u = userId) (users state) with
  | None => mret (refused "User not found")
  | Some (ui, _) =>
      match list_find
              (λ c, RedeemCode.code c = codeStr ∧ RedeemCode.isUsed c = false)
              (redeemCodes state) with
      | None => mret (refused "Invalid or already used code")
      | Some (ci, code) =>
          saveState
            (mkDBState
               (alter (User.addCredits (RedeemCode.amount code)) ui (users state))
               (items state) (purchases state) (transactions state)
               (alter RedeemCode.use ci (redeemCodes state))
               (tickets state));;
          mret (mkRedeemResult true (Some (RedeemCode.amount code)) None)
      end
  end.

(** Tickets *)
Definition getTickets : IO (list Ticket.t) :=
  state ← getInitialState; mret (tickets state).

Definition createTicket (ticket : Ticket.t) : IO unit :=
  state ← getInitialState;
  saveState (withTickets (tickets state ++ [ticket]) state).

Definition addTicketMessage (now : Z) (ticketId : string)
    (message : TicketMessage.t) : IO unit :=
  state ← getInitialState;
  match list_find (λ t, Ticket.id t = ticketId) (tickets state) with
  | Some (ti, _) =>
      saveState
        (withTickets (alter (Ticket.pushMessage message now) ti (tickets state)) state)
  | None => saveState state
  end.

Definition closeTicket (now : Z) (ticketId : string) : IO unit :=
  state ← getInitialState;
  match list_find (λ t, Ticket.id t = ticketId) (tickets state) with
  | Some (ti, _) =>
      saveState (withTickets (alter (Ticket.close now) ti (tickets state)) state)
  | None => saveState state
  end.

End DB.

(** ** Vocabulary of the statements, call sequences and sample media *)

(** The document an operation starts from. *)
Definition document (ls : LocalStorage) : DBState :=
  default emptyState (stored ls).

(** The two lookups of lines 91-92. *)
Definition found (userId itemId : string) (doc : DBState)
    (ui : nat) (user : User.t) (ii : nat) (item : Item.t) : Prop :=
  list_find (λ u, User.id u = userId) (users doc) = Some (ui, user) ∧
  list_find (λ i, Item.id i = itemId) (items doc) = Some (ii, item).

(** The existence check and the credits check of lines 94-95. *)
Definition checksPass (userId itemId : string) (doc : DBState) : Prop :=
  ∃ ui user ii item,
    found userId itemId doc ui user ii item ∧
    (Item.price item ≤ User.credits user)%Z.

(** An item that can be delivered: an instant item, or one with a unit that
    is not delivered yet. *)
Definition inStock (item : Item.t) : Prop :=
  Item.type item = INSTANT ∨
  ∃ units k si,
    Item.sequentialItems item = Some units ∧
    units !! k = Some si ∧ SequentialItem.isDelivered si = false.

(** The effect of a purchase between two media: the record of the user
    found holds the former credits less the price of the item found, every
    other user record is as it was, and one purchase record for this user,
    item and price is appended to the log. *)
Definition debitedAndRecorded (userId itemId : string)
    (ls ls' : LocalStorage) : Prop :=
  ∃ ui user ii item p,
    found userId itemId (document ls) ui user ii item ∧
    users (document ls')
      = <[ui := User.mk (User.id user) (User.role user)
                  (User.credits user - Item.price item)]> (users (document ls)) ∧
    purchases (document ls') = purchases (document ls) ++ [p] ∧
    Purchase.userId p = userId ∧ Purchase.itemId p = itemId ∧
    Purchase.price p = Item.price item.

(** The purchase claim as the specification words it: the purchase is
    applied exactly when the existence check and the credits check pass. *)
Definition appliedIffChecksPass (rnd : string) (now : Z) (userId itemId : string)
    (ls : LocalStorage) : Prop :=
  debitedAndRecorded userId itemId ls
    (after (DB.processPurchase rnd now userId itemId) ls)
  ↔ checksPass userId itemId (document ls).

(** A user with 10 credits and a sequential item of price 5 none of whose
    units is left. *)
Definition soldOutShop : LocalStorage :=
  mkLocalStorage
    (Some (mkDBState
       [User.mk "u1" USER 10]
       [Item.mk "i1" "key" 5 SEQUENTIAL None
          (Some [SequentialItem.mk "K-1" true]) 1]
       [] [] [] []))
    3.

(** A user with 100 credits and an instant item of price 30. *)
Definition instantShop : LocalStorage :=
  mkLocalStorage
    (Some (mkDBState
       [User.mk "U" USER 100]
       [Item.mk "I" "voucher" 30 INSTANT (Some "CODE123") None 0]
       [] [] [] []))
    0.

(** The document [updateTransactionStatus] writes. *)
Definition statusUpdated (id : string) (status : TransactionStatus)
    (doc : DBState) : DBState :=
  match list_find (λ t, Transaction.id t = id) (transactions doc) with
  | Some (ti, tx) =>
      let doc1 :=
        withTransactions (alter (Transaction.withStatus status) ti (transactions doc)) doc in
      if decide (status = APPROVED) then
        match list_find (λ u, User.id u = Transaction.userId tx) (users doc) with
        | Some (ui, _) =>
            withUsers (alter (User.addCredits (Transaction.amount tx)) ui (users doc)) doc1
        | None => doc1
        end
      else doc1
  | None => doc
  end.

(** A pending top-up of 25 credits for a user who holds 10. *)
Definition topUpShop : LocalStorage :=
  mkLocalStorage
    (Some (mkDBState
       [User.mk "U" USER 10; User.mk "V" ADMIN 4]
       [] []
       [Transaction.mk "t1" "U" 25 PENDING; Transaction.mk "t2" "ghost" 9 PENDING]
       [] []))
    1.

(** A call of one of the operations of [DB] that touch the medium. *)
Inductive Call :=
  | GetUsers
  | AddUser (user : User.t)
  | UpdateUserCredits (userId : string) (amount : Z)
  | GetItems
  | AddItem (item : Item.t)
  | UpdateItem (item : Item.t)
  | DeleteItem (itemId : string)
  | GetPurchases
  | AddPurchase (purchase : Purchase.t)
  | ProcessPurchase (rnd : string) (now : Z) (userId itemId : string)
  | GetTransactions
  | AddTransaction (transaction : Transaction.t)
  | UpdateTransactionStatus (id : string) (status : TransactionStatus)
  | GetRedeemCodes
  | AddRedeemCode (code : RedeemCode.t)
  | Redeem (userId codeStr : string)
  | GetTickets
  | CreateTicket (ticket : Ticket.t)
  | AddTicketMessage (now : Z) (ticketId : string) (message : TicketMessage.t)
  | CloseTicket (now : Z) (ticketId : string).

(** Throws the returned value away. *)
Definition void {A} (m : IO A) : IO unit := _ ← m; mret tt.

(** Runs one call against the medium. *)
Definition perform (c : Call) : IO unit :=
  match c with
  | GetUsers => void DB.getUsers
  | AddUser user => DB.addUser user
  | UpdateUserCredits userId amount => DB.updateUserCredits userId amount
  | GetItems => void DB.getItems
  | AddItem item => DB.addItem item
  | UpdateItem item => void (DB.updateItem item)
  | DeleteItem itemId => DB.deleteItem itemId
  | GetPurchases => void DB.getPurchases
  | AddPurchase purchase => DB.addPurchase purchase
  | ProcessPurchase rnd now userId itemId =>
      void (DB.processPurchase rnd now userId itemId)
  | GetTransactions => void DB.getTransactions
  | AddTransaction transaction => DB.addTransaction transaction
  | UpdateTransactionStatus id status => DB.updateTransactionStatus id status
  | GetRedeemCodes => void DB.getRedeemCodes
  | AddRedeemCode code => DB.addRedeemCode code
  | Redeem userId codeStr => void (DB.redeem userId codeStr)
  | GetTickets => void DB.getTickets
  | CreateTicket ticket => DB.createTicket ticket
  | AddTicketMessage now ticketId message => DB.addTicketMessage now ticketId message
  | CloseTicket now ticketId => DB.closeTicket now ticketId
  end.

(** Runs the calls one after the other. *)
Fixpoint performAll (cs : list Call) : IO unit :=
  match cs with
  | [] => mret tt
  | c :: cs' => perform c;; performAll cs'
  end.

(** The two calls that add and remove items. *)
Inductive ItemEdit :=
  | Add (item : Item.t)
  | Delete (itemId : string).

(** [addItem] and [deleteItem] among the calls. *)
Definition editCall (e : ItemEdit) : Call :=
  match e with
  | Add item => AddItem item
  | Delete itemId => DeleteItem itemId
  end.

(** The ids that a sequence of edits deletes. *)
Fixpoint deletions (edits : list ItemEdit) : list string :=
  match edits with
  | [] => []
  | Add _ :: rest => deletions rest
  | Delete itemId :: rest => itemId :: deletions rest
  end.

(** The items a sequence of edits adds and does not delete afterwards, in
    the order of their addition.  This definition follows the words of the
    specification, not the code. *)
Fixpoint addedAndKept (edits : list ItemEdit) : list Item.t :=
  match edits with
  | [] => []
  | Add item :: rest =>
      (if decide (Item.id item ∈ deletions rest) then [] else [item])
        ++ addedAndKept rest
  | Delete _ :: rest => addedAndKept rest
  end.

(** What one call can do to the redeem codes: nothing, append a record, or
    mark as used a record that was not. *)
Inductive codesStep (old new : list RedeemCode.t) : Prop :=
  | codes_same : new = old → codesStep old new
  | codes_added code : new = old ++ [code] → codesStep old new
  | codes_used ci code :
      old !! ci = Some code → RedeemCode.isUsed code = false →
      new = alter RedeemCode.use ci old → codesStep old new.

(** Every record that carries [codeStr] is marked as used. *)
Definition codeIsUsed (codeStr : string) (doc : DBState) : Prop :=
  ∀ c, c ∈ redeemCodes doc → RedeemCode.code c = codeStr →
       RedeemCode.isUsed c = true.

(** The refusal of a used code as the specification words it, for any user
    id. *)
Definition usedCodeRefusedAsUsed (userId codeStr : string) (ls : LocalStorage) : Prop :=
  codeIsUsed codeStr (document ls) →
  DB.redeem userId codeStr ls = (DB.refused "Invalid or already used code", ls).

(** One user, and a welcome code that has been redeemed. *)
Definition redeemedShop : LocalStorage :=
  mkLocalStorage
    (Some (mkDBState
       [User.mk "U" USER 20]
       [] [] []
       [RedeemCode.mk "WELCOME10" 10 true; RedeemCode.mk "SPRING5" 5 false]
       []))
    2.

(** One purchase after the other, each with its own drawn identifier and
    clock value; the results in call order. *)
Fixpoint purchaseEach (draws : list (string * Z)) (userId itemId : string)
    : IO (list PurchaseResult) :=
  match draws with
  | [] => mret []
  | (rnd, now) :: rest =>
      r ← DB.processPurchase rnd now userId itemId;
      rs ← purchaseEach rest userId itemId;
      mret (r :: rs)
  end.


(** Two licence keys at 10 credits each and a user who holds 30. *)
Definition keyShop : LocalStorage :=
  mkLocalStorage
    (Some (mkDBState
       [User.mk "U" USER 30]
       [Item.mk "K" "licence" 10 SEQUENTIAL None
          (Some [SequentialItem.mk "AAA" false; SequentialItem.mk "BBB" false]) 0]
       [] [] [] []))
    0.

(** The whole numbers of magnitude at most 2^53.  On them, and when the
    result is one of them, the [+] and [-] of the source's numbers are the
    [+] and [-] of [Z]; beyond, the source rounds.  The statements whose
    subject is a sum or a difference carry this as a hypothesis. *)
Definition exact (z : Z) : Prop :=
  (- 9007199254740992 ≤ z ≤ 9007199254740992)%Z.

(** The approval claim as the specification words it, for a stored
    transaction [tx]: its status becomes APPROVED where it is stored and the
    user found under its user id holds the former credits plus its amount. *)
Definition approvalAsWorded (tx : Transaction.t) (ls : LocalStorage) : Prop :=
  let ls' := after (DB.updateTransactionStatus (Transaction.id tx) APPROVED) ls in
  ∀ i, transactions (document ls) !! i = Some tx →
    transactions (document ls') !! i
      = Some (Transaction.mk (Transaction.id tx) (Transaction.userId tx)
                (Transaction.amount tx) APPROVED) ∧
    ∀ ui user,
      list_find (λ u, User.id u = Transaction.userId tx) (users (document ls))
        = Some (ui, user) →
      users (document ls') !! ui
        = Some (User.mk (User.id user) (User.role user)
                  (User.credits user + Transaction.amount tx)).

(** Two pending top-ups filed under the same id, for different users. *)
Definition twinTopUps : LocalStorage :=
  mkLocalStorage
    (Some (mkDBState
       [User.mk "U" USER 10; User.mk "V" USER 4]
       [] []
       [Transaction.mk "t" "U" 25 PENDING; Transaction.mk "t" "V" 7 PENDING]
       [] []))
    1.

(** ** Vocabulary of the further properties *)

(** A position of a list into which one record was inserted before
    position [n], seen from the list without that record. *)
Definition shiftPast (n i : nat) : nat := if decide (i < n) then i else S i.

(** [l1] is [l0] with the record [x] inserted after the records [la], one of
    which has the key of [x]. *)
Definition inertAt {A} (key : A → string) (x : A) (la lb l0 l1 : list A) : Prop :=
  l0 = la ++ lb ∧ l1 = la ++ x :: lb ∧ ∃ old, old ∈ la ∧ key old = key x.

(** [l1] is [l0], or [l0] with [x] inserted behind a record with its key. *)
Definition inertIn {A} (key : A → string) (x : A) (l0 l1 : list A) : Prop :=
  l1 = l0 ∨ ∃ la lb, inertAt key x la lb l0 l1.

(** Two documents that differ at most by the item [x], stored in the second
    behind an item with its id. *)
Definition sameButItem (x : Item.t) (d0 d1 : DBState) : Prop :=
  users d0 = users d1 ∧ purchases d0 = purchases d1 ∧
  transactions d0 = transactions d1 ∧ redeemCodes d0 = redeemCodes d1 ∧
  tickets d0 = tickets d1 ∧ inertIn Item.id x (items d0) (items d1).

(** Two documents that differ at most by the user [x], stored in the second
    behind a user with its id. *)
Definition sameButUser (x : User.t) (d0 d1 : DBState) : Prop :=
  items d0 = items d1 ∧ purchases d0 = purchases d1 ∧
  transactions d0 = transactions d1 ∧ redeemCodes d0 = redeemCodes d1 ∧
  tickets d0 = tickets d1 ∧
  ∃ la lb, inertAt User.id x la lb (users d0) (users d1).

(** The medium after one [setItem] call that stores [doc]. *)
Definition written (doc : DBState) (ls : LocalStorage) : LocalStorage :=
  mkLocalStorage (Some doc) (S (setItemCalls ls)).

(** [l'] holds, at every position of [l], a record that [R] relates to the
    one [l] holds there; [l'] may be longer. *)
Definition keeps {A} (R : A → A → Prop) (l l' : list A) : Prop :=
  ∀ i x, l !! i = Some x → ∃ x', l' !! i = Some x' ∧ R x x'.

(** What the operations leave alone in a record of each collection. *)
Definition sameUser (u u' : User.t) : Prop :=
  User.id u' = User.id u ∧ User.role u' = User.role u.

Definition sameTransaction (t t' : Transaction.t) : Prop :=
  Transaction.id t' = Transaction.id t ∧
  Transaction.userId t' = Transaction.userId t ∧
  Transaction.amount t' = Transaction.amount t.

Definition sameCode (c c' : RedeemCode.t) : Prop :=
  RedeemCode.code c' = RedeemCode.code c ∧
  RedeemCode.amount c' = RedeemCode.amount c ∧
  (RedeemCode.isUsed c = true → RedeemCode.isUsed c' = true).

Definition laterTicket (tk tk' : Ticket.t) : Prop :=
  Ticket.id tk' = Ticket.id tk ∧
  Ticket.messages tk `prefix_of` Ticket.messages tk' ∧
  (Ticket.status tk = CLOSED → Ticket.status tk' = CLOSED).

(** The number of records that carry [codeStr] and are not used. *)
Definition unusedCount (codeStr : string) (doc : DBState) : nat :=
  length (filter (λ c, RedeemCode.code c = codeStr ∧ RedeemCode.isUsed c = false)
            (redeemCodes doc)).

(** One [redeem] of the same code after the other, by the users given; the
    results in call order. *)
Fixpoint redeemEach (userIds : list string) (codeStr : string)
    : IO (list RedeemResult) :=
  match userIds with
  | [] => mret []
  | userId :: rest =>
      r ← DB.redeem userId codeStr;
      rs ← redeemEach rest codeStr;
      mret (r :: rs)
  end.

(** The number of successful results. *)
Definition successes (rs : list RedeemResult) : nat :=
  length (filter (λ r, r_success r = true) rs).

(** The number of units of an item that are marked as delivered. *)
Definition deliveredUnits (item : Item.t) : nat :=
  length (filter (λ si, SequentialItem.isDelivered si = true)
            (default [] (Item.sequentialItems item))).

(** The credits of all users together. *)
Fixpoint totalCredits (us : list User.t) : Z :=
  match us with
  | [] => 0
  | u :: rest => User.credits u + totalCredits rest
  end.

(** Two tickets, the second one closed. *)
Definition helpDesk : LocalStorage :=
  mkLocalStorage
    (Some (mkDBState [] [] [] [] []
       [Ticket.mk "T1" [TicketMessage.mk "hello" "U" 5] OPEN 5;
        Ticket.mk "T2" [] CLOSED 6]))
    4.

(** ** Reading and writing the medium *)

(** Unfolds the monad and the two storage primitives. *)
Ltac io_unfold :=
  unfold result, after, DB.getUsers, DB.getItems, DB.getPurchases,
    DB.getTransactions, DB.getRedeemCodes, DB.getTickets,
    getInitialState, saveState, getItem, setItem,
    mbind, mret, IO_bind, IO_ret in *.

Lemma getInitialState_run ls : getInitialState ls = (document ls, ls).
Proof. io_unfold. unfold document. by destruct (stored ls). Qed.

Lemma saveState_run doc ls :
  saveState doc ls = (tt, mkLocalStorage (Some doc) (S (setItemCalls ls))).
Proof. reflexivity. Qed.

Lemma bind_run {A B} (m : IO A) (f : A → IO B) ls :
  (m ≫= f) ls = f (m ls).1 (m ls).2.
Proof. unfold mbind, IO_bind. by destruct (m ls). Qed.

Lemma document_written doc n : document (mkLocalStorage (Some doc) n) = doc.
Proof. reflexivity. Qed.

(** ** First-match lookups and in-place updates *)
Section first_match.
Context {A : Type} (P : A → Prop) `{!∀ x, Decision (P x)}.

Lemma list_find_alter_keep (f : A → A) (l : list A) i x :
  list_find P l = Some (i, x) → P (f x) →
  list_find P (alter f i l) = Some (i, f x).
Proof.
  intros (Hi & HP & Hleast)%list_find_Some Hf. apply list_find_Some.
  split_and!; [by rewrite list_lookup_alter_eq, Hi | done |].
  intros j y Hj Hlt. rewrite list_lookup_alter_ne in Hj by lia. eauto.
Qed.

Lemma list_find_insert_keep (l : list A) i x y :
  list_find P l = Some (i, x) → P y →
  list_find P (<[i := y]> l) = Some (i, y).
Proof.
  intros (Hi & HP & Hleast)%list_find_Some Hy. apply list_find_Some.
  split_and!; [|done|].
  - apply list_lookup_insert_eq. by eapply lookup_lt_Some.
  - intros j z Hj Hlt. rewrite list_lookup_insert_ne in Hj by lia. eauto.
Qed.

Lemma list_find_lookup (l : list A) i x :
  list_find P l = Some (i, x) → l !! i = Some x.
Proof. by intros (? & _)%list_find_Some. Qed.

Lemma list_find_holds (l : list A) i x :
  list_find P l = Some (i, x) → P x.
Proof. by intros (_ & ? & _)%list_find_Some. Qed.

Lemma list_find_is_Some (l : list A) :
  is_Some (list_find P l) ↔ ∃ x, x ∈ l ∧ P x.
Proof.
  split.
  - intros [[i x] Hfind]. exists x. split; [|by eapply list_find_holds].
    eapply list_elem_of_lookup_2, list_find_lookup, Hfind.
  - intros (x & Hx & HP). by eapply list_find_elem_of.
Qed.
End first_match.

(** A field assignment through a reference overwrites the record found. *)
Lemma alter_as_insert {A} (f : A → A) (l : list A) i x :
  l !! i = Some x → alter f i l = <[i := f x]> l.
Proof.
  intros Hi. apply list_eq. intros j. destruct (decide (i = j)) as [->|Hne].
  - rewrite list_lookup_alter_eq, Hi, list_lookup_insert_eq; [done|].
    by eapply lookup_lt_Some.
  - by rewrite list_lookup_alter_ne, list_lookup_insert_ne.
Qed.

(** ** Reads on a fresh medium *)

(** C8. When the backing key is absent, each of the six read operations
    returns the empty sequence and leaves the medium exactly as it found it:
    the key is still absent and no [setItem] call was made.  The empty
    document reaches the medium only with a mutating call, such as [addUser],
    which stores the default document extended by its own change. *)
Theorem absent_key_reads_empty_and_do_not_write (ls : LocalStorage) :
  stored ls = None →
  DB.getUsers ls = ([], ls) ∧
  DB.getItems ls = ([], ls) ∧
  DB.getPurchases ls = ([], ls) ∧
  DB.getTransactions ls = ([], ls) ∧
  DB.getRedeemCodes ls = ([], ls) ∧
  DB.getTickets ls = ([], ls) ∧
  ∀ user, after (DB.addUser user) ls
          = mkLocalStorage (Some (withUsers [user] emptyState)) (S (setItemCalls ls)).
Proof.
  intros Habsent. io_unfold. unfold DB.addUser. io_unfold.
  rewrite Habsent. by repeat split.
Qed.

Lemma absent_key_reads_witness :
  DB.getItems (mkLocalStorage None 0) = ([], mkLocalStorage None 0).
Proof.
  by destruct (absent_key_reads_empty_and_do_not_write (mkLocalStorage None 0) eq_refl)
    as (_ & ? & _).
Defined.

(** Reads never write, whatever the medium holds. *)
Lemma reads_do_not_write ls :
  after DB.getUsers ls = ls ∧ after DB.getItems ls = ls ∧
  after DB.getPurchases ls = ls ∧ after DB.getTransactions ls = ls ∧
  after DB.getRedeemCodes ls = ls ∧ after DB.getTickets ls = ls.
Proof. io_unfold. by destruct (stored ls). Qed.

Lemma getItems_document ls : result DB.getItems ls = items (document ls).
Proof. io_unfold. unfold document. by destruct (stored ls). Qed.

Lemma getUsers_document ls : result DB.getUsers ls = users (document ls).
Proof. io_unfold. unfold document. by destruct (stored ls). Qed.

Lemma getPurchases_document ls : result DB.getPurchases ls = purchases (document ls).
Proof. io_unfold. unfold document. by destruct (stored ls). Qed.

Lemma getRedeemCodes_document ls :
  result DB.getRedeemCodes ls = redeemCodes (document ls).
Proof. io_unfold. unfold document. by destruct (stored ls). Qed.

(** ** updateItem *)

Lemma updateItem_run item ls :
  DB.updateItem item ls =
    match list_find (λ i, Item.id i = Item.id item) (items (document ls)) with
    | Some (index, _) =>
        (true, mkLocalStorage
                 (Some (withItems (<[index := item]> (items (document ls))) (document ls)))
                 (S (setItemCalls ls)))
    | None => (false, ls)
    end.
Proof.
  unfold DB.updateItem. rewrite bind_run, getInitialState_run. simpl.
  by destruct (list_find _ _) as [[index old]|].
Qed.

(** C6. [updateItem item] returns [true] exactly when some stored item has
    the id of [item].  In that case the first such record, at position
    [index], is replaced by [item]: the items keep their number, position
    [index] holds [item], every other position holds what it held, the other
    collections are as they were, and the document is written once.  When it
    returns [false] the medium is left as it was, without any write. *)
Theorem updateItem_replaces_in_place_or_leaves_store (item : Item.t) (ls : LocalStorage) :
  (result (DB.updateItem item) ls = true ↔
     ∃ i, i ∈ items (document ls) ∧ Item.id i = Item.id item) ∧
  (result (DB.updateItem item) ls = true →
     ∃ index old,
       list_find (λ i, Item.id i = Item.id item) (items (document ls))
         = Some (index, old) ∧
       after (DB.updateItem item) ls
         = mkLocalStorage
             (Some (withItems (<[index := item]> (items (document ls))) (document ls)))
             (S (setItemCalls ls)) ∧
       let items' := items (document (after (DB.updateItem item) ls)) in
       length items' = length (items (document ls)) ∧
       items' !! index = Some item ∧
       ∀ j, j ≠ index → items' !! j = items (document ls) !! j) ∧
  (result (DB.updateItem item) ls = false →
     after (DB.updateItem item) ls = ls).
Proof.
  unfold result, after. rewrite updateItem_run.
  destruct (list_find _ _) as [[index old]|] eqn:Hfind; simpl.
  - split_and!; [|intros _|done].
    + split; [intros _|done]. apply (list_find_is_Some (λ i, Item.id i = Item.id item)). eauto.
    + exists index, old. split_and!; [done..| | |].
      * apply length_insert.
      * apply list_lookup_insert_eq. eapply lookup_lt_Some, list_find_lookup, Hfind.
      * intros j Hj. by apply list_lookup_insert_ne.
  - split_and!; [|done..].
    split; [done|]. intros Hex.
    apply (list_find_is_Some (λ i, Item.id i = Item.id item)) in Hex.
    rewrite Hfind in Hex. by destruct Hex.
Qed.

(** ** processPurchase *)

Lemma processPurchase_run rnd now userId itemId ls :
  DB.processPurchase rnd now userId itemId ls =
    match list_find (λ u, User.id u = userId) (users (document ls)),
          list_find (λ i, Item.id i = itemId) (items (document ls)) with
    | Some (ui, user), Some (ii, item) =>
        if decide (User.credits user < Item.price item)%Z
        then (DB.failed "Insufficient credits", ls)
        else
          match DB.takeContent item with
          | None => (DB.failed "Out of stock", ls)
          | Some (content, item') =>
              (DB.delivered content,
               mkLocalStorage
                 (Some (mkDBState
                    (alter (User.subCredits (Item.price item')) ui (users (document ls)))
                    (<[ii := item']> (items (document ls)))
                    (purchases (document ls)
                       ++ [Purchase.mk rnd userId itemId (Item.name item') content now
                             (Item.price item')])
                    (transactions (document ls)) (redeemCodes (document ls))
                    (tickets (document ls))))
                 (S (setItemCalls ls)))
          end
    | _, _ => (DB.failed "User or Item not found", ls)
    end.
Proof.
  unfold DB.processPurchase. rewrite bind_run, getInitialState_run. simpl.
  destruct (list_find _ (users _)) as [[ui user]|]; [|done].
  destruct (list_find _ (items _)) as [[ii item]|]; [|done].
  destruct (decide _); [done|].
  by destruct (DB.takeContent item) as [[content item']|].
Qed.

(** The stock branch keeps every field of the item but its units and its
    delivered count. *)
Lemma takeContent_fields item content item' :
  DB.takeContent item = Some (content, item') →
  Item.id item' = Item.id item ∧ Item.name item' = Item.name item ∧
  Item.price item' = Item.price item ∧ Item.type item' = Item.type item ∧
  Item.content item' = Item.content item.
Proof.
  unfold DB.takeContent. destruct (Item.type item) eqn:Htype.
  - by intros [= _ <-].
  - destruct (Item.sequentialItems item) as [units|]; [|done].
    destruct (list_find _ units) as [[k available]|]; [|done].
    by intros [= _ <-].
Qed.


Lemma takeContent_inStock item :
  is_Some (DB.takeContent item) ↔ inStock item.
Proof.
  unfold DB.takeContent, inStock. destruct (Item.type item).
  - split; [by left | eauto].
  - destruct (Item.sequentialItems item) as [units|].
    + destruct (list_find _ units) as [[k available]|] eqn:Hfind.
      * split; [intros _|eauto]. right. exists units, k, available.
        split_and!; [done| |].
        -- by eapply list_find_lookup.
        -- by eapply (list_find_holds (λ si, SequentialItem.isDelivered si = false)).
      * split; [by intros [? ?]|].
        intros [?|(units' & k & si & [= <-] & Hk & Hsi)]; [done|].
        apply list_find_None in Hfind.
        by eapply Forall_lookup_1 in Hfind.
    + split; [by intros [? ?]|]. by intros [?|(? & ? & ? & ? & _)].
Qed.

(** C1 fails as worded: in [soldOutShop] both checks pass, yet the call
    returns 'Out of stock' and applies nothing. *)
Lemma sold_out_item_passes_checks_without_purchase :
  checksPass "u1" "i1" (document soldOutShop) ∧
  DB.processPurchase "r" 0 "u1" "i1" soldOutShop
    = (DB.failed "Out of stock", soldOutShop) ∧
  ¬ appliedIffChecksPass "r" 0 "u1" "i1" soldOutShop.
Proof.
  assert (Hchecks : checksPass "u1" "i1" (document soldOutShop)).
  { exists 0, (User.mk "u1" USER 10), 0,
      (Item.mk "i1" "key" 5 SEQUENTIAL None (Some [SequentialItem.mk "K-1" true]) 1).
    by vm_compute. }
  assert (Hrun : DB.processPurchase "r" 0 "u1" "i1" soldOutShop
                 = (DB.failed "Out of stock", soldOutShop)) by by vm_compute.
  split_and!; [done..|].
  intros [_ Happlied]. destruct (Happlied Hchecks) as (? & ? & ? & ? & p & _ & _ & Hlog & _).
  unfold after in Hlog. rewrite Hrun in Hlog. by destruct p.
Qed.

(** C1 (amended). [processPurchase] debits the user and appends a purchase
    record exactly when the existence check and the credits check pass and
    the item is in stock (an instant item, or a sequential item with an
    undelivered unit); that is also exactly when it reports success.  On
    every failure the error is one of 'User or Item not found',
    'Insufficient credits' and 'Out of stock', and the medium is left as it
    was: same document (credits, stock and purchase log) and no write. *)
Theorem processPurchase_applies_iff_checks_and_stock
    (rnd : string) (now : Z) (userId itemId : string) (ls : LocalStorage) :
  let r := result (DB.processPurchase rnd now userId itemId) ls in
  let ls' := after (DB.processPurchase rnd now userId itemId) ls in
  (debitedAndRecorded userId itemId ls ls' ↔
     ∃ ui user ii item,
       found userId itemId (document ls) ui user ii item ∧
       (Item.price item ≤ User.credits user)%Z ∧ inStock item) ∧
  (p_success r = true ↔ debitedAndRecorded userId itemId ls ls') ∧
  (p_success r = false →
     ls' = ls ∧
     (p_error r = Some "User or Item not found" ∨
      p_error r = Some "Insufficient credits" ∨
      p_error r = Some "Out of stock")).
Proof.
  assert (Hno : ∀ ui user ii item p,
    found userId itemId (document ls) ui user ii item →
    purchases (document ls) ≠ purchases (document ls) ++ [p]).
  { intros _ _ _ _ p _ Heq. apply (f_equal length) in Heq.
    rewrite length_app in Heq. simpl in Heq. lia. }
  unfold debitedAndRecorded, found, result, after. rewrite processPurchase_run.
  destruct (list_find _ (users _)) as [[ui user]|] eqn:Hu; simpl;
    [destruct (list_find _ (items _)) as [[ii item]|] eqn:Hi; simpl|].
  - destruct (decide _) as [Hlt|Hge]; simpl.
    + split_and!; [split| |by eauto].
      * intros (? & ? & ? & ? & p & _ & _ & Hlog & _). by eapply Hno in Hlog.
      * intros (? & ? & ? & ? & [[= <- <-] [= <- <-]] & ? & _). lia.
      * split; [done|]. intros (? & ? & ? & ? & p & _ & _ & Hlog & _).
        by eapply Hno in Hlog.
    + destruct (DB.takeContent item) as [[content item']|] eqn:Htake; simpl.
      * destruct (takeContent_fields _ _ _ Htake) as (_ & _ & Hprice & _).
        assert (Happlied : ∃ ui0 user0 ii0 item0 p,
          (Some (ui, user) = Some (ui0, user0) ∧ Some (ii, item) = Some (ii0, item0)) ∧
          alter (User.subCredits (Item.price item')) ui (users (document ls))
            = <[ui0 := User.mk (User.id user0) (User.role user0)
                         (User.credits user0 - Item.price item0)]>
                (users (document ls)) ∧
          purchases (document ls)
            ++ [Purchase.mk rnd userId itemId (Item.name item') content now
                  (Item.price item')]
            = purchases (document ls) ++ [p] ∧
          Purchase.userId p = userId ∧ Purchase.itemId p = itemId ∧
          Purchase.price p = Item.price item0).
        { eexists ui, user, ii, item, _. rewrite Hprice.
          split_and!; [done..| |done|done|done|done].
          erewrite alter_as_insert; [reflexivity|]. by eapply list_find_lookup. }
        split_and!; [split; [intros _|done]|done|done].
        exists ui, user, ii, item. split_and!; [done..|lia|].
        apply takeContent_inStock. by rewrite Htake.
      * split_and!; [split| |by eauto].
        -- intros (? & ? & ? & ? & p & _ & _ & Hlog & _). by eapply Hno in Hlog.
        -- intros (? & ? & ? & ? & [_ [= <- <-]] & _ & Hstock).
           apply takeContent_inStock in Hstock. rewrite Htake in Hstock.
           by destruct Hstock.
        -- split; [done|]. intros (? & ? & ? & ? & p & _ & _ & Hlog & _).
           by eapply Hno in Hlog.
  - split_and!; [split| |by eauto].
    + by intros (? & ? & ? & ? & ? & [_ ?] & _).
    + by intros (? & ? & ? & ? & [_ ?] & _).
    + split; [done|]. by intros (? & ? & ? & ? & ? & [_ ?] & _).
  - split_and!; [split| |by eauto].
    + by intros (? & ? & ? & ? & ? & [? _] & _).
    + by intros (? & ? & ? & ? & [? _] & _).
    + split; [done|]. by intros (? & ? & ? & ? & ? & [? _] & _).
Qed.

Lemma processPurchase_applies_witness :
  users (document (after (DB.processPurchase "p1" 7 "U" "I") instantShop))
    = [User.mk "U" USER 70] ∧
  length (purchases (document (after (DB.processPurchase "p1" 7 "U" "I") instantShop)))
    = 1.
Proof.
  destruct (processPurchase_applies_iff_checks_and_stock "p1" 7 "U" "I" instantShop)
    as (Hiff & _ & _).
  destruct (proj2 Hiff)
    as (ui & user & ii & item & p & [Hu Hi] & Husers & Hlog & _).
  { exists 0, (User.mk "U" USER 100), 0,
      (Item.mk "I" "voucher" 30 INSTANT (Some "CODE123") None 0).
    split_and!; [split; by vm_compute|simpl; lia|by left]. }
  vm_compute in Hu. vm_compute in Hi.
  injection Hu as <- <-. injection Hi as <- <-.
  rewrite Husers, Hlog. split; reflexivity.
Defined.



(** C5. After a successful [processPurchase] no user record that held a
    non-negative balance holds a negative one: the record of the purchasing
    user holds its former credits less the price, which the credits check
    made at most those credits, and every other record is as it was. *)
Theorem purchase_keeps_credits_non_negative
    (rnd : string) (now : Z) (userId itemId : string) (ls : LocalStorage) :
  p_success (result (DB.processPurchase rnd now userId itemId) ls) = true →
  (∃ ui user ii item,
     found userId itemId (document ls) ui user ii item ∧
     (Item.price item ≤ User.credits user)%Z ∧
     users (document (after (DB.processPurchase rnd now userId itemId) ls)) !! ui
       = Some (User.subCredits (Item.price item) user) ∧
     (0 ≤ User.credits (User.subCredits (Item.price item) user))%Z) ∧
  ∀ i u,
    users (document ls) !! i = Some u → (0 ≤ User.credits u)%Z →
    ∃ u', users (document (after (DB.processPurchase rnd now userId itemId) ls)) !! i
            = Some u' ∧
          User.id u' = User.id u ∧ (0 ≤ User.credits u')%Z.
Proof.
  unfold found, result, after. rewrite processPurchase_run.
  destruct (list_find _ (users _)) as [[ui user]|] eqn:Hu; [|done].
  destruct (list_find _ (items _)) as [[ii item]|] eqn:Hi; [|done].
  destruct (decide _) as [Hlt|Hge]; [done|].
  destruct (DB.takeContent item) as [[content item']|] eqn:Htake; [|done].
  destruct (takeContent_fields _ _ _ Htake) as (_ & _ & Hprice & _).
  simpl. rewrite Hprice. intros _.
  pose proof (list_find_lookup _ _ _ _ Hu) as Hlook.
  assert (Hui : alter (User.subCredits (Item.price item)) ui (users (document ls)) !! ui
                = Some (User.subCredits (Item.price item) user)).
  { by rewrite list_lookup_alter_eq, Hlook. }
  split.
  - exists ui, user, ii, item. split_and!; [done..|lia|done|simpl; lia].
  - intros i u Hiu Hpos. destruct (decide (i = ui)) as [->|Hne].
    + exists (User.subCredits (Item.price item) user).
      rewrite Hlook in Hiu. injection Hiu as <-.
      split_and!; [done..|simpl; lia].
    + exists u. by rewrite list_lookup_alter_ne.
Qed.

Lemma purchase_keeps_credits_witness :
  ∃ u', users (document (after (DB.processPurchase "p1" 7 "U" "I") instantShop)) !! 0
          = Some u' ∧
        User.id u' = "U" ∧ (0 ≤ User.credits u')%Z.
Proof.
  apply (proj2 (purchase_keeps_credits_non_negative "p1" 7 "U" "I" instantShop eq_refl)
           0 (User.mk "U" USER 100)).
  - reflexivity.
  - by vm_compute.
Defined.

(** ** updateTransactionStatus *)

Lemma updateTransactionStatus_run id status ls :
  DB.updateTransactionStatus id status ls
    = (tt, mkLocalStorage (Some (statusUpdated id status (document ls)))
             (S (setItemCalls ls))).
Proof.
  unfold DB.updateTransactionStatus, statusUpdated.
  rewrite bind_run, getInitialState_run. simpl.
  destruct (list_find _ (transactions _)) as [[ti tx]|]; [|done].
  destruct (decide _); [|done]. simpl.
  by destruct (list_find _ (users _)) as [[ui user]|].
Qed.

(** Where ids are unique, the lookup by the id of a stored record returns
    that record. *)
Lemma unique_id_lookup {A} (key : A → string) (l : list A) i x :
  NoDup (key <$> l) → l !! i = Some x →
  list_find (λ y, key y = key x) l = Some (i, x).
Proof.
  intros Hnodup Hi. apply list_find_Some. split_and!; [done..|].
  intros j y Hj Hlt Hkey.
  assert (i = j); [|lia].
  eapply NoDup_lookup; [done| |]; rewrite list_lookup_fmap.
  - by rewrite Hi.
  - rewrite Hj. simpl. by rewrite Hkey.
Qed.

(** C3 fails as worded: a stored transaction that shares its id with an
    earlier one is not the one the lookup returns.  Approving by the id of
    the second of the [twinTopUps] approves the first and credits its user;
    the second stays PENDING and its user's credits are untouched. *)
Lemma shadowed_transaction_is_not_approved :
  Transaction.mk "t" "V" 7 PENDING ∈ transactions (document twinTopUps) ∧
  document (after (DB.updateTransactionStatus "t" APPROVED) twinTopUps)
    = mkDBState
        [User.mk "U" USER 35; User.mk "V" USER 4]
        [] []
        [Transaction.mk "t" "U" 25 APPROVED; Transaction.mk "t" "V" 7 PENDING]
        [] [] ∧
  ¬ approvalAsWorded (Transaction.mk "t" "V" 7 PENDING) twinTopUps.
Proof.
  split_and!.
  - apply list_elem_of_further, list_elem_of_here.
  - by vm_compute.
  - intros Hclaim. destruct (Hclaim 1 eq_refl) as [Hstatus _].
    vm_compute in Hstatus. discriminate Hstatus.
Qed.

(** C3 (amended). Let [tx] be the first stored transaction with the id, the
    one the lookup returns.  [updateTransactionStatus id APPROVED] sets its
    status to APPROVED and leaves every other transaction as it was.  For the
    first user [user] with the id [tx.userId], it overwrites the credits of
    that record and of no other; the new credits are the former ones plus
    [tx.amount] whenever these numbers and their sum are whole numbers of
    magnitude at most 2^53.  A second such call finds the same transaction
    and the same user and adds [tx.amount] once more.  A call with any status
    other than APPROVED, for any id, leaves the users as they were. *)
Theorem approval_credits_owner_each_time
    (ls : LocalStorage) (id : string) (ti : nat) (tx : Transaction.t) :
  list_find (λ t, Transaction.id t = id) (transactions (document ls)) = Some (ti, tx) →
  let ls1 := after (DB.updateTransactionStatus id APPROVED) ls in
  let ls2 := after (DB.updateTransactionStatus id APPROVED) ls1 in
  transactions (document ls1)
    = <[ti := Transaction.mk (Transaction.id tx) (Transaction.userId tx)
                (Transaction.amount tx) APPROVED]> (transactions (document ls)) ∧
  transactions (document ls2) = transactions (document ls1) ∧
  (∀ ui user,
     list_find (λ u, User.id u = Transaction.userId tx) (users (document ls))
       = Some (ui, user) →
     ∃ credits1 credits2,
       users (document ls1)
         = <[ui := User.mk (User.id user) (User.role user) credits1]>
             (users (document ls)) ∧
       users (document ls2)
         = <[ui := User.mk (User.id user) (User.role user) credits2]>
             (users (document ls)) ∧
       (exact (User.credits user) → exact (Transaction.amount tx) →
        exact (User.credits user + Transaction.amount tx) →
        credits1 = (User.credits user + Transaction.amount tx)%Z) ∧
       (exact (User.credits user) → exact (Transaction.amount tx) →
        exact (User.credits user + Transaction.amount tx) →
        exact (User.credits user + Transaction.amount tx + Transaction.amount tx) →
        credits2
          = (User.credits user + Transaction.amount tx + Transaction.amount tx)%Z)) ∧
  (∀ id' status,
     status ≠ APPROVED →
     users (document (after (DB.updateTransactionStatus id' status) ls))
       = users (document ls)).
Proof.
  intros Htx ls1 ls2.
  pose proof (list_find_lookup _ _ _ _ Htx) as Hti.
  assert (Htxs1 : transactions (document ls1)
            = <[ti := Transaction.withStatus APPROVED tx]> (transactions (document ls))).
  { subst ls1. unfold after. rewrite updateTransactionStatus_run. simpl.
    unfold statusUpdated. rewrite Htx. simpl.
    destruct (list_find _ (users _)) as [[ui user]|]; simpl;
      by apply alter_as_insert. }
  assert (Htx1 : list_find (λ t, Transaction.id t = id) (transactions (document ls1))
                 = Some (ti, Transaction.withStatus APPROVED tx)).
  { rewrite Htxs1.
    apply (list_find_insert_keep (λ t, Transaction.id t = id) _ _ tx); [done|].
    simpl. by eapply (list_find_holds (λ t, Transaction.id t = id)). }
  assert (Htxs2 : transactions (document ls2) = transactions (document ls1)).
  { subst ls2. unfold after at 1. rewrite updateTransactionStatus_run. simpl.
    unfold statusUpdated. rewrite Htx1. simpl.
    assert (Hsame : alter (Transaction.withStatus APPROVED) ti
                      (transactions (document ls1))
                    = transactions (document ls1)).
    { erewrite alter_as_insert by by eapply list_find_lookup.
      apply list_insert_id. by eapply list_find_lookup. }
    destruct (list_find _ (users _)) as [[ui user]|]; simpl; by rewrite Hsame. }
  split_and!; [done|done| |].
  - intros ui user Hu.
    pose proof (list_find_lookup _ _ _ _ Hu) as Hlook.
    assert (Hu1 : users (document ls1)
              = <[ui := User.addCredits (Transaction.amount tx) user]>
                  (users (document ls))).
    { subst ls1. unfold after. rewrite updateTransactionStatus_run. simpl.
      unfold statusUpdated. rewrite Htx; simpl; rewrite Hu. simpl.
      by apply alter_as_insert. }
    assert (Hfind1 : list_find (λ u, User.id u = Transaction.userId tx)
                       (users (document ls1))
                     = Some (ui, User.addCredits (Transaction.amount tx) user)).
    { rewrite Hu1.
      apply (list_find_insert_keep (λ u, User.id u = Transaction.userId tx) _ _ user);
        [done|].
      simpl. by eapply (list_find_holds (λ u, User.id u = Transaction.userId tx)). }
    assert (Hu2 : users (document ls2)
              = <[ui := User.addCredits (Transaction.amount tx)
                          (User.addCredits (Transaction.amount tx) user)]>
                  (users (document ls))).
    { subst ls2. unfold after at 1. rewrite updateTransactionStatus_run. simpl.
      unfold statusUpdated. rewrite Htx1. simpl. rewrite Hfind1. simpl.
      erewrite alter_as_insert by by eapply list_find_lookup.
      by rewrite Hu1, list_insert_insert_eq. }
    exists (User.credits (User.addCredits (Transaction.amount tx) user)),
      (User.credits (User.addCredits (Transaction.amount tx)
                       (User.addCredits (Transaction.amount tx) user))).
    split_and!; [done|done|done|done].
  - intros id' status Hstatus. unfold after.
    rewrite updateTransactionStatus_run. simpl. unfold statusUpdated.
    destruct (list_find (λ t, Transaction.id t = id') _) as [[ti' tx']|]; [|done].
    destruct (decide (status = APPROVED)); [congruence|reflexivity].
Qed.

Lemma approval_credits_owner_witness :
  transactions (document (after (DB.updateTransactionStatus "t1" APPROVED) topUpShop))
    = [Transaction.mk "t1" "U" 25 APPROVED; Transaction.mk "t2" "ghost" 9 PENDING] ∧
  users (document (after (DB.updateTransactionStatus "t1" APPROVED) topUpShop))
    = [User.mk "U" USER 35; User.mk "V" ADMIN 4] ∧
  users (document (after (DB.updateTransactionStatus "t1" APPROVED)
                     (after (DB.updateTransactionStatus "t1" APPROVED) topUpShop)))
    = [User.mk "U" USER 60; User.mk "V" ADMIN 4].
Proof.
  destruct (approval_credits_owner_each_time topUpShop "t1" 0
              (Transaction.mk "t1" "U" 25 PENDING) eq_refl)
    as (Hstatus & _ & Hcredit & _).
  destruct (Hcredit 0 (User.mk "U" USER 10) eq_refl)
    as (credits1 & credits2 & Hu1 & Hu2 & Hsum1 & Hsum2).
  rewrite Hstatus, Hu1, Hu2, Hsum1, Hsum2; unfold exact; simpl; try lia.
  done.
Defined.

(** C9. When the transaction found by [id] names a user id that no stored
    user has, [updateTransactionStatus id APPROVED] still sets the status to
    APPROVED and writes the document once; the users are those read, every
    other collection too, and the call returns nothing to the caller (its
    result is the unit value, as for a call that credits a user). *)
Theorem approval_without_owner_sets_status_only
    (ls : LocalStorage) (id : string) (ti : nat) (tx : Transaction.t) :
  list_find (λ t, Transaction.id t = id) (transactions (document ls)) = Some (ti, tx) →
  list_find (λ u, User.id u = Transaction.userId tx) (users (document ls)) = None →
  DB.updateTransactionStatus id APPROVED ls
    = (tt, mkLocalStorage
             (Some (withTransactions
                      (alter (Transaction.withStatus APPROVED) ti
                         (transactions (document ls)))
                      (document ls)))
             (S (setItemCalls ls))) ∧
  transactions (document (after (DB.updateTransactionStatus id APPROVED) ls)) !! ti
    = Some (Transaction.withStatus APPROVED tx) ∧
  users (document (after (DB.updateTransactionStatus id APPROVED) ls))
    = users (document ls).
Proof.
  intros Htx Hu. unfold after. rewrite updateTransactionStatus_run. simpl.
  unfold statusUpdated. rewrite Htx. simpl. rewrite Hu.
  split_and!; [done| |done]. simpl.
  by rewrite list_lookup_alter_eq, (list_find_lookup _ _ _ _ Htx).
Qed.

Lemma approval_without_owner_witness :
  transactions (document (after (DB.updateTransactionStatus "t2" APPROVED) topUpShop)) !! 1
    = Some (Transaction.mk "t2" "ghost" 9 APPROVED) ∧
  users (document (after (DB.updateTransactionStatus "t2" APPROVED) topUpShop))
    = [User.mk "U" USER 10; User.mk "V" ADMIN 4].
Proof.
  destruct (approval_without_owner_sets_status_only topUpShop "t2" 1
              (Transaction.mk "t2" "ghost" 9 PENDING) eq_refl eq_refl)
    as (_ & Hstatus & Husers).
  split; [exact Hstatus | exact Husers].
Defined.

(** ** Sequences of calls *)

Lemma after_void {A} (m : IO A) ls : after (void m) ls = after m ls.
Proof. unfold after, void. rewrite bind_run. reflexivity. Qed.

Lemma performAll_cons c cs ls :
  after (performAll (c :: cs)) ls = after (performAll cs) (after (perform c) ls).
Proof. unfold after. simpl. rewrite bind_run. reflexivity. Qed.

(** ** addItem and deleteItem *)

Lemma addItem_items item ls :
  items (document (after (DB.addItem item) ls)) = items (document ls) ++ [item].
Proof.
  unfold after, DB.addItem. rewrite bind_run, getInitialState_run. reflexivity.
Qed.

Lemma deleteItem_items itemId ls :
  items (document (after (DB.deleteItem itemId) ls))
    = filter (λ i, Item.id i ≠ itemId) (items (document ls)).
Proof.
  unfold after, DB.deleteItem. rewrite bind_run, getInitialState_run. reflexivity.
Qed.

Lemma filter_all {A} (P : A → Prop) `{!∀ x, Decision (P x)} (l : list A) :
  (∀ x, P x) → filter P l = l.
Proof.
  intros HP. induction l as [|x l IH]; [done|].
  by rewrite filter_cons_True, IH.
Qed.

(** C7. After any sequence of [addItem] and [deleteItem] calls, from any
    medium, [getItems] returns the items held at the start whose id no call
    deleted, in their order, followed by the items added and not deleted by
    a later call, in the order of their addition. *)
Theorem getItems_after_edits (edits : list ItemEdit) (ls : LocalStorage) :
  result DB.getItems (after (performAll (editCall <$> edits)) ls)
    = filter (λ i, Item.id i ∉ deletions edits) (result DB.getItems ls)
        ++ addedAndKept edits.
Proof.
  rewrite !getItems_document. revert ls.
  induction edits as [|[item|itemId] rest IH]; intros ls.
  - simpl. rewrite app_nil_r. symmetry. apply filter_all.
    intros i. apply not_elem_of_nil.
  - rewrite fmap_cons, performAll_cons, IH. simpl perform.
    rewrite addItem_items, filter_app, <- app_assoc. simpl. f_equal.
    rewrite filter_cons, filter_nil. by destruct (decide _); destruct (decide _).
  - rewrite fmap_cons, performAll_cons, IH. simpl perform.
    rewrite deleteItem_items, list_filter_filter. simpl. f_equal.
    apply list_filter_iff. intros i. rewrite not_elem_of_cons. tauto.
Qed.

(** ** redeem *)

Lemma redeem_run userId codeStr ls :
  DB.redeem userId codeStr ls =
    match list_find (λ u, User.id u = userId) (users (document ls)) with
    | None => (DB.refused "User not found", ls)
    | Some (ui, _) =>
        match list_find
                (λ c, RedeemCode.code c = codeStr ∧ RedeemCode.isUsed c = false)
                (redeemCodes (document ls)) with
        | None => (DB.refused "Invalid or already used code", ls)
        | Some (ci, code) =>
            (mkRedeemResult true (Some (RedeemCode.amount code)) None,
             mkLocalStorage
               (Some (mkDBState
                  (alter (User.addCredits (RedeemCode.amount code)) ui
                     (users (document ls)))
                  (items (document ls)) (purchases (document ls))
                  (transactions (document ls))
                  (alter RedeemCode.use ci (redeemCodes (document ls)))
                  (tickets (document ls))))
               (S (setItemCalls ls)))
        end
    end.
Proof.
  unfold DB.redeem. rewrite bind_run, getInitialState_run. simpl.
  destruct (list_find _ (users _)) as [[ui user]|]; [|done].
  by destruct (list_find _ (redeemCodes _)) as [[ci code]|].
Qed.

Lemma redeem_codesStep userId codeStr ls :
  codesStep (redeemCodes (document ls))
            (redeemCodes (document (after (DB.redeem userId codeStr) ls))).
Proof.
  unfold after. rewrite redeem_run.
  destruct (list_find _ (users _)) as [[ui user]|]; [|by constructor].
  destruct (list_find _ (redeemCodes _)) as [[ci code]|] eqn:Hfind; [|by constructor].
  apply list_find_Some in Hfind as (Hci & [_ Hunused] & _).
  by eapply codes_used.
Qed.

Lemma perform_codesStep c ls :
  codesStep (redeemCodes (document ls))
            (redeemCodes (document (after (perform c) ls))).
Proof.
  destruct c; simpl perform; rewrite ?after_void;
    try apply redeem_codesStep;
    try (unfold after; rewrite updateItem_run);
    try (unfold after; rewrite processPurchase_run);
    try (unfold after; rewrite updateTransactionStatus_run; unfold statusUpdated);
    try (unfold after, DB.getUsers, DB.getItems, DB.getPurchases, DB.getTransactions,
           DB.getRedeemCodes, DB.getTickets, DB.addUser, DB.updateUserCredits,
           DB.addItem, DB.deleteItem, DB.addPurchase, DB.addTransaction,
           DB.addRedeemCode, DB.createTicket, DB.addTicketMessage, DB.closeTicket;
         rewrite bind_run, getInitialState_run);
    simpl;
    repeat match goal with
      | |- context [match ?x with _ => _ end] => destruct x as [[? ?]|]; simpl
      | |- context [if ?x then _ else _] => destruct x; simpl
      end;
    first [by apply codes_same | by eapply codes_added].
Qed.

(** A record that is used stays where it is and what it is through a call. *)
Lemma codesStep_used_kept old new i c :
  codesStep old new →
  old !! i = Some c → RedeemCode.isUsed c = true → new !! i = Some c.
Proof.
  intros [->| code -> | ci code Hci Hunused ->] Hi Hused; [done| |].
  - by apply lookup_app_l_Some.
  - rewrite list_lookup_alter_ne; [done|]. intros ->. congruence.
Qed.

Lemma performAll_used_kept cs ls i c :
  redeemCodes (document ls) !! i = Some c → RedeemCode.isUsed c = true →
  redeemCodes (document (after (performAll cs) ls)) !! i = Some c.
Proof.
  revert ls. induction cs as [|call cs IH]; intros ls Hi Hused; [done|].
  rewrite performAll_cons. apply IH; [|done].
  eapply codesStep_used_kept; [apply perform_codesStep|done..].
Qed.

(** C4 fails as worded: for a user id that no stored user has, the call is
    refused with 'User not found', whatever the state of the code. *)
Lemma used_code_unknown_user_counterexample :
  DB.redeem "nobody" "WELCOME10" redeemedShop
    = (DB.refused "User not found", redeemedShop) ∧
  ¬ usedCodeRefusedAsUsed "nobody" "WELCOME10" redeemedShop.
Proof.
  split; [by vm_compute|]. intros Hclaim.
  assert (Hused : codeIsUsed "WELCOME10" (document redeemedShop)).
  { intros c Hc Hcode. simpl in Hc.
    apply elem_of_cons in Hc as [->|Hc]; [done|].
    apply elem_of_cons in Hc as [->|Hc]; [done|].
    by apply elem_of_nil in Hc. }
  specialize (Hclaim Hused). vm_compute in Hclaim. discriminate Hclaim.
Qed.

(** C4 (amended).  In a state where every record carrying [codeStr] is
    marked as used, [redeem userId codeStr] fails and leaves the medium as it
    was, so that no user's credits change: with 'Invalid or already used
    code' when [userId] names a stored user, with 'User not found' when it
    does not.  A record marked as used is never reset: after any sequence of
    calls of the store's operations it sits at the same position with the
    same contents, and a [redeem] that succeeds in that later state marks a
    record at another position, which was unused and carries the code
    asked for. *)
Theorem used_code_is_refused_and_stays_used
    (userId codeStr : string) (ls : LocalStorage) :
  (codeIsUsed codeStr (document ls) →
   DB.redeem userId codeStr ls
     = (DB.refused
          (match list_find (λ u, User.id u = userId) (users (document ls)) with
           | Some _ => "Invalid or already used code"
           | None => "User not found"
           end),
        ls)) ∧
  (∀ (i : nat) (c : RedeemCode.t) (calls : list Call),
     redeemCodes (document ls) !! i = Some c →
     RedeemCode.isUsed c = true →
     let ls' := after (performAll calls) ls in
     redeemCodes (document ls') !! i = Some c ∧
     ∀ userId' codeStr',
       r_success (result (DB.redeem userId' codeStr') ls') = true →
       ∃ ci code,
         ci ≠ i ∧
         redeemCodes (document ls') !! ci = Some code ∧
         RedeemCode.isUsed code = false ∧
         RedeemCode.code code = codeStr' ∧
         r_amount (result (DB.redeem userId' codeStr') ls')
           = Some (RedeemCode.amount code) ∧
         redeemCodes (document (after (DB.redeem userId' codeStr') ls'))
           = alter RedeemCode.use ci (redeemCodes (document ls'))).
Proof.
  split.
  - intros Hused. rewrite redeem_run.
    destruct (list_find _ (users _)) as [[ui user]|]; [|done].
    destruct (list_find _ (redeemCodes _)) as [[ci code]|] eqn:Hfind; [|done].
    apply list_find_Some in Hfind as (Hci & [Hcode Hunused] & _).
    apply list_elem_of_lookup_2 in Hci. specialize (Hused code Hci Hcode). congruence.
  - intros i c calls Hi Hused ls'.
    assert (Hkept : redeemCodes (document ls') !! i = Some c)
      by by apply performAll_used_kept.
    split; [done|]. intros userId' codeStr'. unfold result, after.
    rewrite redeem_run.
    destruct (list_find _ (users _)) as [[ui user]|]; [|done].
    destruct (list_find _ (redeemCodes _)) as [[ci code]|] eqn:Hfind; [|done].
    intros _. apply list_find_Some in Hfind as (Hci & [Hcode Hunused] & _).
    exists ci, code. split_and!; [|done..]. intros ->. congruence.
Qed.

Lemma used_code_is_refused_witness :
  DB.redeem "U" "WELCOME10" redeemedShop
    = (DB.refused "Invalid or already used code", redeemedShop) ∧
  redeemCodes (document (after (performAll
      [Redeem "U" "SPRING5"; AddRedeemCode (RedeemCode.mk "WELCOME10" 10 false);
       Redeem "U" "WELCOME10"]) redeemedShop)) !! 0
    = Some (RedeemCode.mk "WELCOME10" 10 true).
Proof.
  destruct (used_code_is_refused_and_stays_used "U" "WELCOME10" redeemedShop)
    as [Hrefused Hkept].
  split.
  - apply Hrefused. intros c Hc Hcode. simpl in Hc.
    apply elem_of_cons in Hc as [->|Hc]; [reflexivity|].
    apply elem_of_cons in Hc as [->|Hc]; [discriminate Hcode|].
    by apply elem_of_nil in Hc.
  - apply (Hkept 0 (RedeemCode.mk "WELCOME10" 10 true)); reflexivity.
Defined.

(** ** Sequential stock *)




Section stock.
Variables (userId itemId : string) (ui ii : nat).




End stock.



(** The credits check precedes the stock check: a user whose credits cover
    the units but not one purchase more is refused for lack of credits once
    the stock is gone. *)
Example sold_out_and_out_of_credits :
  result (purchaseEach [("p1", 1%Z); ("p2", 2%Z); ("p3", 3%Z)] "U" "K")
    (mkLocalStorage
       (Some (mkDBState
          [User.mk "U" USER 20]
          [Item.mk "K" "licence" 10 SEQUENTIAL None
             (Some [SequentialItem.mk "AAA" false; SequentialItem.mk "BBB" false]) 0]
          [] [] [] []))
       0)
  = [DB.delivered "AAA"; DB.delivered "BBB"; DB.failed "Insufficient credits"].
Proof. by vm_compute. Qed.

(** ** What every sequence of calls keeps *)

Section keeps.
Context {A : Type} (R : A → A → Prop).

Lemma keeps_refl (l : list A) : (∀ x, R x x) → keeps R l l.
Proof. intros Hrefl i x Hi. eauto. Qed.

Lemma keeps_app (l k : list A) : (∀ x, R x x) → keeps R l (l ++ k).
Proof. intros Hrefl i x Hi. exists x. split; [by apply lookup_app_l_Some|done]. Qed.

Lemma keeps_alter (f : A → A) (l : list A) j :
  (∀ x, R x x) → (∀ x, R x (f x)) → keeps R l (alter f j l).
Proof.
  intros Hrefl Hf i x Hi. destruct (decide (j = i)) as [->|Hne].
  - exists (f x). by rewrite list_lookup_alter_eq, Hi.
  - exists x. by rewrite list_lookup_alter_ne.
Qed.

Lemma keeps_trans (l1 l2 l3 : list A) :
  (∀ x y z, R x y → R y z → R x z) →
  keeps R l1 l2 → keeps R l2 l3 → keeps R l1 l3.
Proof.
  intros Htrans H12 H23 i x Hi.
  destruct (H12 i x Hi) as (y & Hy & Hxy).
  destruct (H23 i y Hy) as (z & Hz & Hyz). eauto.
Qed.
End keeps.

(** Splits a statement about one call into the documents the call can
    leave. *)
Ltac call_cases c :=
  destruct c; simpl perform; rewrite ?after_void; unfold after;
  rewrite ?updateItem_run, ?processPurchase_run, ?redeem_run,
    ?updateTransactionStatus_run;
  unfold statusUpdated, DB.getUsers, DB.getItems, DB.getPurchases,
    DB.getTransactions, DB.getRedeemCodes, DB.getTickets, DB.addUser,
    DB.updateUserCredits, DB.addItem, DB.deleteItem, DB.addPurchase,
    DB.addTransaction, DB.addRedeemCode, DB.createTicket, DB.addTicketMessage,
    DB.closeTicket;
  rewrite ?bind_run, ?getInitialState_run; simpl;
  repeat match goal with
    | |- context [match ?x with _ => _ end] => destruct x as [[? ?]|]; simpl
    | |- context [if ?x then _ else _] => destruct x; simpl
    end.

Lemma sameUser_refl u : sameUser u u.
Proof. done. Qed.

Lemma sameTransaction_refl t : sameTransaction t t.
Proof. done. Qed.

Lemma sameCode_refl c : sameCode c c.
Proof. done. Qed.

Lemma laterTicket_refl tk : laterTicket tk tk.
Proof. done. Qed.

Lemma perform_keeps_purchases c ls :
  purchases (document ls) `prefix_of` purchases (document (after (perform c) ls)).
Proof. call_cases c; first [done | by eexists]. Qed.

Lemma perform_keeps_users c ls :
  keeps sameUser (users (document ls)) (users (document (after (perform c) ls))).
Proof.
  call_cases c;
    first [ apply keeps_refl, sameUser_refl
          | apply keeps_app, sameUser_refl
          | apply keeps_alter; [apply sameUser_refl | done] ].
Qed.

Lemma perform_keeps_transactions c ls :
  keeps sameTransaction (transactions (document ls))
    (transactions (document (after (perform c) ls))).
Proof.
  call_cases c;
    first [ apply keeps_refl, sameTransaction_refl
          | apply keeps_app, sameTransaction_refl
          | apply keeps_alter; [apply sameTransaction_refl | done] ].
Qed.

Lemma perform_keeps_codes c ls :
  keeps sameCode (redeemCodes (document ls))
    (redeemCodes (document (after (perform c) ls))).
Proof.
  call_cases c;
    first [ apply keeps_refl, sameCode_refl
          | apply keeps_app, sameCode_refl
          | apply keeps_alter; [apply sameCode_refl | done] ].
Qed.

Lemma perform_keeps_tickets c ls :
  keeps laterTicket (tickets (document ls))
    (tickets (document (after (perform c) ls))).
Proof.
  call_cases c;
    first [ apply keeps_refl, laterTicket_refl
          | apply keeps_app, laterTicket_refl
          | apply keeps_alter; [apply laterTicket_refl |];
            intros tk; split_and!; first [done | by eexists] ].
Qed.

Lemma getTransactions_document ls :
  result DB.getTransactions ls = transactions (document ls).
Proof. io_unfold. unfold document. by destruct (stored ls). Qed.

Lemma getTickets_document ls : result DB.getTickets ls = tickets (document ls).
Proof. io_unfold. unfold document. by destruct (stored ls). Qed.

Lemma performAll_keeps {A} (R : A → A → Prop) (field : DBState → list A) :
  (∀ x, R x x) → (∀ x y z, R x y → R y z → R x z) →
  (∀ c ls, keeps R (field (document ls)) (field (document (after (perform c) ls)))) →
  ∀ cs ls, keeps R (field (document ls)) (field (document (after (performAll cs) ls))).
Proof.
  intros Hrefl Htrans Hstep cs. induction cs as [|c cs IH]; intros ls.
  - by apply keeps_refl.
  - rewrite performAll_cons. eapply keeps_trans; [done|apply Hstep|apply IH].
Qed.

(** X5. The purchase log is append-only: after any sequence of calls
    [getPurchases] returns what it returned before, followed by the records
    added since.  No call changes, reorders or removes a record. *)
Theorem purchase_log_is_append_only (cs : list Call) (ls : LocalStorage) :
  result DB.getPurchases ls
    `prefix_of` result DB.getPurchases (after (performAll cs) ls).
Proof.
  rewrite !getPurchases_document. revert ls.
  induction cs as [|c cs IH]; intros ls; [done|].
  rewrite performAll_cons. etrans; [apply perform_keeps_purchases|apply IH].
Qed.

(** X6. No call removes, moves or renames a user: after any sequence of
    calls every position of the users list that was filled still holds a
    user with the same id and role.  Only credits can differ. *)
Theorem users_keep_position_id_and_role (cs : list Call) (ls : LocalStorage) :
  keeps sameUser (result DB.getUsers ls)
    (result DB.getUsers (after (performAll cs) ls)).
Proof.
  rewrite !getUsers_document. revert cs ls.
  apply (performAll_keeps sameUser users); [done| |apply perform_keeps_users].
  intros x y z [? ?] [? ?]. split; congruence.
Qed.

(** X7. No call removes or moves a transaction or changes its id, its user
    id or its amount: after any sequence of calls every position of the
    transactions list that was filled holds a transaction with these three
    fields as before.  Only the status can differ. *)
Theorem transactions_keep_id_owner_and_amount (cs : list Call) (ls : LocalStorage) :
  keeps sameTransaction (result DB.getTransactions ls)
    (result DB.getTransactions (after (performAll cs) ls)).
Proof.
  rewrite !getTransactions_document. revert cs ls.
  apply (performAll_keeps sameTransaction transactions);
    [done| |apply perform_keeps_transactions].
  intros x y z (? & ? & ?) (? & ? & ?). split_and!; congruence.
Qed.

(** X8. No call removes or moves a redeem code or changes its code string or
    its amount, and none marks a used record as unused: after any sequence of
    calls every position of the redeem codes list that was filled holds a
    record with the same code and amount, used if it was used. *)
Theorem redeem_codes_keep_code_and_amount (cs : list Call) (ls : LocalStorage) :
  keeps sameCode (result DB.getRedeemCodes ls)
    (result DB.getRedeemCodes (after (performAll cs) ls)).
Proof.
  rewrite !getRedeemCodes_document. revert cs ls.
  apply (performAll_keeps sameCode redeemCodes); [done| |apply perform_keeps_codes].
  intros x y z (? & ? & ?) (? & ? & ?). split_and!; [congruence..|auto].
Qed.

(** X9. No call removes or moves a ticket, changes its id, drops or rewrites
    one of its messages, or reopens it: after any sequence of calls every
    position of the tickets list that was filled holds a ticket with the same
    id whose messages start with the former messages and which is CLOSED if
    it was CLOSED. *)
Theorem tickets_keep_messages_and_stay_closed (cs : list Call) (ls : LocalStorage) :
  keeps laterTicket (result DB.getTickets ls)
    (result DB.getTickets (after (performAll cs) ls)).
Proof.
  rewrite !getTickets_document. revert cs ls.
  apply (performAll_keeps laterTicket tickets); [done| |apply perform_keeps_tickets].
  intros x y z (? & ? & ?) (? & ? & ?). split_and!; [congruence|by etrans|auto].
Qed.

(** One call leaves the medium as it is or makes one [setItem] call. *)
Lemma perform_writes_at_most_once c ls :
  after (perform c) ls = ls ∨ ∃ doc, after (perform c) ls = written doc ls.
Proof. call_cases c; first [by left | right; by eexists]. Qed.

(** X10. Over any sequence of calls the number of [setItem] calls never
    decreases; if it is the same at the end, the medium is exactly as it was
    (nothing changes without a write); if it grew, the key is present.  A key
    that is present stays present: no operation removes it. *)
Theorem medium_changes_only_by_writes (cs : list Call) (ls : LocalStorage) :
  let ls' := after (performAll cs) ls in
  setItemCalls ls ≤ setItemCalls ls' ∧
  (setItemCalls ls' = setItemCalls ls → ls' = ls) ∧
  (setItemCalls ls < setItemCalls ls' → is_Some (stored ls')) ∧
  (is_Some (stored ls) → is_Some (stored ls')).
Proof.
  revert ls. induction cs as [|c cs IH]; intros ls; cbv zeta.
  { change (after (performAll []) ls) with ls. split_and!; [done..|lia|done]. }
  rewrite performAll_cons.
  destruct (IH (after (perform c) ls)) as (Hle & Hsame & Hgrew & Hkept).
  destruct (perform_writes_at_most_once c ls) as [Heq|[doc Heq]]; rewrite Heq in *.
  - done.
  - simpl in *. split_and!; [lia|lia| |]; intros _; apply Hkept; eauto.
Qed.

(** ** redeem, in full *)

Lemma filter_length_alter {A} (P : A → Prop) `{!∀ x, Decision (P x)}
    (f : A → A) (l : list A) i x :
  l !! i = Some x →
  length (filter P (alter f i l)) + (if decide (P x) then 1 else 0)
    = length (filter P l) + (if decide (P (f x)) then 1 else 0).
Proof.
  revert i. induction l as [|y l IH]; intros [|i] Hi; simplify_eq/=.
  - rewrite !filter_cons. repeat case_decide; simpl; lia.
  - specialize (IH i Hi). rewrite !filter_cons. repeat case_decide; simpl; lia.
Qed.

Lemma redeem_uses_one_record userId codeStr ls :
  r_success (result (DB.redeem userId codeStr) ls) = true →
  unusedCount codeStr (document (after (DB.redeem userId codeStr) ls)) + 1
    = unusedCount codeStr (document ls).
Proof.
  unfold result, after, unusedCount. rewrite redeem_run.
  destruct (list_find _ (users _)) as [[ui user]|]; [|done].
  destruct (list_find _ (redeemCodes _)) as [[ci code]|] eqn:Hfind; [|done].
  intros _. simpl.
  apply list_find_Some in Hfind as (Hci & Hcode & _).
  pose proof (filter_length_alter
    (λ c, RedeemCode.code c = codeStr ∧ RedeemCode.isUsed c = false)
    RedeemCode.use _ _ _ Hci) as Hcount.
  rewrite decide_True in Hcount by done.
  rewrite decide_False in Hcount by (by intros [_ ?]). lia.
Qed.

Lemma redeem_failure_leaves_medium userId codeStr ls :
  r_success (result (DB.redeem userId codeStr) ls) = false →
  after (DB.redeem userId codeStr) ls = ls.
Proof.
  unfold result, after. rewrite redeem_run.
  destruct (list_find _ (users _)) as [[ui user]|]; [|done].
  by destruct (list_find _ (redeemCodes _)) as [[ci code]|].
Qed.

(** X1. [redeem userId codeStr] succeeds exactly when a stored user has the
    id and some record carries the code and is unused.  It then takes the
    first such user and the first such record, overwrites the credits of that
    user record, marks that code record as used (its code and amount being
    kept), returns the record's amount and writes once; nothing else in the
    document changes.  The new credits are the former ones plus the amount
    whenever these numbers and their sum are whole numbers of magnitude at
    most 2^53.  When it fails the error is 'User not found' or 'Invalid or
    already used code' and the medium is left as it was. *)
Theorem redeem_credits_first_unused_record_or_leaves_store
    (userId codeStr : string) (ls : LocalStorage) :
  let r := result (DB.redeem userId codeStr) ls in
  let ls' := after (DB.redeem userId codeStr) ls in
  (r_success r = true ↔
     (∃ u, u ∈ users (document ls) ∧ User.id u = userId) ∧
     (∃ c, c ∈ redeemCodes (document ls) ∧
           RedeemCode.code c = codeStr ∧ RedeemCode.isUsed c = false)) ∧
  (r_success r = true →
     ∃ ui user ci code credits',
       list_find (λ u, User.id u = userId) (users (document ls)) = Some (ui, user) ∧
       list_find (λ c, RedeemCode.code c = codeStr ∧ RedeemCode.isUsed c = false)
         (redeemCodes (document ls)) = Some (ci, code) ∧
       r = mkRedeemResult true (Some (RedeemCode.amount code)) None ∧
       ls' = written
               (mkDBState
                  (<[ui := User.mk (User.id user) (User.role user) credits']>
                     (users (document ls)))
                  (items (document ls)) (purchases (document ls))
                  (transactions (document ls))
                  (<[ci := RedeemCode.mk (RedeemCode.code code)
                              (RedeemCode.amount code) true]>
                     (redeemCodes (document ls)))
                  (tickets (document ls)))
               ls ∧
       (exact (User.credits user) → exact (RedeemCode.amount code) →
        exact (User.credits user + RedeemCode.amount code) →
        credits' = (User.credits user + RedeemCode.amount code)%Z)) ∧
  (r_success r = false →
     ls' = ls ∧
     (r_error r = Some "User not found" ∨
      r_error r = Some "Invalid or already used code")).
Proof.
  unfold result, after. rewrite redeem_run.
  destruct (list_find _ (users _)) as [[ui user]|] eqn:Hu; simpl.
  - destruct (list_find _ (redeemCodes _)) as [[ci code]|] eqn:Hc; simpl.
    + split_and!; [split; [intros _|done]|intros _|done].
      * split.
        -- apply (list_find_is_Some (λ u, User.id u = userId)). eauto.
        -- apply (list_find_is_Some
             (λ c, RedeemCode.code c = codeStr ∧ RedeemCode.isUsed c = false)). eauto.
      * exists ui, user, ci, code,
          (User.credits (User.addCredits (RedeemCode.amount code) user)).
        split_and!; [done..| |done].
        unfold written.
        erewrite (alter_as_insert _ (users _)) by by eapply list_find_lookup.
        erewrite (alter_as_insert _ (redeemCodes _)) by by eapply list_find_lookup.
        done.
    + split_and!; [split; [done|]|done|by eauto].
      intros [_ Hex].
      apply (list_find_is_Some
        (λ c, RedeemCode.code c = codeStr ∧ RedeemCode.isUsed c = false)) in Hex.
      rewrite Hc in Hex. by destruct Hex.
  - split_and!; [split; [done|]|done|by eauto].
    intros [Hex _].
    apply (list_find_is_Some (λ u, User.id u = userId)) in Hex.
    rewrite Hu in Hex. by destruct Hex.
Qed.

Lemma redeem_credits_witness :
  document (after (DB.redeem "U" "SPRING5") redeemedShop)
    = mkDBState
        [User.mk "U" USER 25]
        [] [] []
        [RedeemCode.mk "WELCOME10" 10 true; RedeemCode.mk "SPRING5" 5 true]
        [].
Proof.
  destruct (redeem_credits_first_unused_record_or_leaves_store "U" "SPRING5" redeemedShop)
    as (_ & Hsuccess & _).
  destruct (Hsuccess eq_refl)
    as (ui & user & ci & code & credits' & Hu & Hc & _ & Hls & Hsum).
  vm_compute in Hu. vm_compute in Hc.
  injection Hu as <- <-. injection Hc as <- <-.
  rewrite Hls, Hsum; unfold exact; simpl; try lia.
  reflexivity.
Defined.

Lemma redeemEach_cons userId rest codeStr ls :
  redeemEach (userId :: rest) codeStr ls
    = (result (DB.redeem userId codeStr) ls
         :: result (redeemEach rest codeStr) (after (DB.redeem userId codeStr) ls),
       after (redeemEach rest codeStr) (after (DB.redeem userId codeStr) ls)).
Proof.
  unfold result, after. simpl. rewrite bind_run.
  destruct (DB.redeem userId codeStr ls) as [r ls1]. simpl. rewrite bind_run.
  by destruct (redeemEach rest codeStr ls1).
Qed.

(** X2. Each successful [redeem] of a code uses up one unused record that
    carries it: over any series of [redeem] calls for one code, by whatever
    users, the number of successes and the number of unused records left add
    up to the number of unused records there were.  So a code is redeemed at
    most as many times as it has unused records, and when it has none every
    [redeem] of it fails. *)
Theorem code_is_redeemed_once_per_unused_record
    (userIds : list string) (codeStr : string) (ls : LocalStorage) :
  successes (result (redeemEach userIds codeStr) ls)
    + unusedCount codeStr (document (after (redeemEach userIds codeStr) ls))
    = unusedCount codeStr (document ls) ∧
  (unusedCount codeStr (document ls) = 0 →
   ∀ userId, r_success (result (DB.redeem userId codeStr) ls) = false).
Proof.
  split.
  - revert ls. induction userIds as [|userId rest IH]; intros ls; [done|].
    unfold result at 1. unfold after at 1. rewrite redeemEach_cons.
    cbn [fst snd].
    specialize (IH (after (DB.redeem userId codeStr) ls)).
    unfold successes in *. rewrite filter_cons.
    destruct (r_success (result (DB.redeem userId codeStr) ls)) eqn:Hr.
    + apply redeem_uses_one_record in Hr.
      rewrite decide_True by done. simpl. lia.
    + rewrite decide_False by done.
      apply redeem_failure_leaves_medium in Hr. rewrite Hr in IH. by rewrite !Hr.
  - intros Hnone userId.
    destruct (r_success (result (DB.redeem userId codeStr) ls)) eqn:Hr; [|done].
    apply redeem_uses_one_record in Hr. lia.
Qed.

Lemma code_is_redeemed_once_witness :
  r_success (result (DB.redeem "U" "WELCOME10") redeemedShop) = false.
Proof.
  apply (proj2 (code_is_redeemed_once_per_unused_record [] "WELCOME10" redeemedShop)).
  reflexivity.
Defined.

(** ** updateUserCredits *)

Lemma updateUserCredits_run userId amount ls :
  DB.updateUserCredits userId amount ls
    = (tt, written
             (match list_find (λ u, User.id u = userId) (users (document ls)) with
              | Some (ui, _) =>
                  withUsers (alter (User.addCredits amount) ui (users (document ls)))
                    (document ls)
              | None => document ls
              end) ls).
Proof.
  unfold DB.updateUserCredits. rewrite bind_run, getInitialState_run. simpl.
  by destruct (list_find _ _) as [[ui user]|].
Qed.

Lemma document_of_written doc ls : document (written doc ls) = doc.
Proof. reflexivity. Qed.

Lemma withUsers_same doc : withUsers (users doc) doc = doc.
Proof. by destruct doc. Qed.

(** X3. [updateUserCredits userId amount] always writes exactly once.  When
    no stored user has the id, the document written is the one read (the
    empty document when the key was absent).  Otherwise the credits of the
    first user with the id are overwritten, with no lower bound checked, and
    every other user record and every other collection is as it was; the new
    credits are the former ones plus [amount] whenever these numbers and
    their sum are whole numbers of magnitude at most 2^53. *)
Theorem updateUserCredits_adds_to_first_match_and_always_writes
    (userId : string) (amount : Z) (ls : LocalStorage) :
  let ls' := after (DB.updateUserCredits userId amount) ls in
  setItemCalls ls' = S (setItemCalls ls) ∧
  is_Some (stored ls') ∧
  (list_find (λ u, User.id u = userId) (users (document ls)) = None →
   document ls' = document ls) ∧
  (∀ ui user,
     list_find (λ u, User.id u = userId) (users (document ls)) = Some (ui, user) →
     ∃ credits',
       document ls'
         = withUsers
             (<[ui := User.mk (User.id user) (User.role user) credits']>
                (users (document ls)))
             (document ls) ∧
       (exact (User.credits user) → exact amount →
        exact (User.credits user + amount) →
        credits' = (User.credits user + amount)%Z)).
Proof.
  unfold after. rewrite updateUserCredits_run. simpl.
  split_and!; [done|by eexists| |].
  - by intros ->.
  - intros ui user Hfind. rewrite Hfind, document_of_written.
    exists (User.credits (User.addCredits amount user)). split; [|done].
    erewrite alter_as_insert; [reflexivity|]. by eapply list_find_lookup.
Qed.

Lemma updateUserCredits_witness :
  document (after (DB.updateUserCredits "V" (-9)) topUpShop)
    = mkDBState
        [User.mk "U" USER 10; User.mk "V" ADMIN (-5)]
        [] []
        [Transaction.mk "t1" "U" 25 PENDING; Transaction.mk "t2" "ghost" 9 PENDING]
        [] [].
Proof.
  destruct (updateUserCredits_adds_to_first_match_and_always_writes "V" (-9) topUpShop)
    as (_ & _ & _ & Hfound).
  destruct (Hfound 1 (User.mk "V" ADMIN 4) eq_refl) as (credits' & Hdoc & Hsum).
  rewrite Hdoc, Hsum; unfold exact; simpl; try lia.
  reflexivity.
Defined.

(** X4. As long as the amounts, their sum and the balances reached are whole
    numbers of magnitude at most 2^53, two [updateUserCredits] calls for the
    same id leave the document that one call with the sum of the amounts
    leaves; in particular adding an amount and then its opposite restores
    the document. *)
Theorem updateUserCredits_amounts_add_up
    (userId : string) (a b : Z) (ls : LocalStorage) :
  exact a → exact b → exact (a + b) →
  (∀ ui user,
     list_find (λ u, User.id u = userId) (users (document ls)) = Some (ui, user) →
     exact (User.credits user) ∧ exact (User.credits user + a) ∧
     exact (User.credits user + a + b)) →
  document (after (DB.updateUserCredits userId b)
              (after (DB.updateUserCredits userId a) ls))
    = document (after (DB.updateUserCredits userId (a + b)) ls) ∧
  (b = (- a)%Z →
   document (after (DB.updateUserCredits userId b)
               (after (DB.updateUserCredits userId a) ls))
     = document ls).
Proof.
  intros _ _ _ _.
  assert (Htwice :
    document (after (DB.updateUserCredits userId b)
                (after (DB.updateUserCredits userId a) ls))
    = match list_find (λ u, User.id u = userId) (users (document ls)) with
      | Some (ui, _) =>
          withUsers (alter (User.addCredits b ∘ User.addCredits a) ui
                       (users (document ls))) (document ls)
      | None => document ls
      end).
  { unfold after. rewrite !updateUserCredits_run. simpl.
    rewrite !document_of_written.
    destruct (list_find _ (users (document ls))) as [[ui user]|] eqn:Hfind.
    - simpl. erewrite list_find_alter_keep; [|done|].
      + unfold withUsers. simpl. by rewrite list_alter_alter_eq.
      + simpl. by eapply (list_find_holds (λ u, User.id u = userId)).
    - by rewrite Hfind. }
  split.
  - rewrite Htwice. unfold after. rewrite updateUserCredits_run. simpl.
    rewrite document_of_written.
    destruct (list_find _ _) as [[ui user]|]; [|done]. f_equal.
    apply list_alter_ext; [|done]. intros u _. unfold User.addCredits. simpl.
    f_equal. lia.
  - intros ->. rewrite Htwice. destruct (list_find _ _) as [[ui user]|]; [|done].
    rewrite list_alter_id; [apply withUsers_same|].
    intros [id role credits]. unfold User.addCredits. simpl. f_equal. lia.
Qed.

Lemma updateUserCredits_amounts_witness :
  document (after (DB.updateUserCredits "U" (-7))
              (after (DB.updateUserCredits "U" 7) topUpShop))
    = document topUpShop.
Proof.
  refine (proj2 (updateUserCredits_amounts_add_up "U" 7 (-7) topUpShop _ _ _ _) eq_refl);
    try (unfold exact; lia).
  intros ui user Hu. vm_compute in Hu. injection Hu as <- <-.
  unfold exact. simpl. lia.
Defined.

(** ** The append operations *)


(** ** deleteItem *)

Lemma deleteItem_document itemId ls :
  document (after (DB.deleteItem itemId) ls)
    = withItems (filter (λ i, Item.id i ≠ itemId) (items (document ls))) (document ls).
Proof.
  unfold after, DB.deleteItem. by rewrite bind_run, getInitialState_run.
Qed.

(** X11. After [deleteItem itemId] no stored item has the id: every
    [updateItem] for it returns [false] without writing and every
    [processPurchase] of it fails with 'User or Item not found' without
    writing.  The call always writes once, and a second [deleteItem] of the
    same id stores the same document again. *)
Theorem deleted_item_is_gone (itemId : string) (ls : LocalStorage) :
  let ls' := after (DB.deleteItem itemId) ls in
  setItemCalls ls' = S (setItemCalls ls) ∧
  (∀ i, i ∈ result DB.getItems ls' → Item.id i ≠ itemId) ∧
  (∀ item, Item.id item = itemId → DB.updateItem item ls' = (false, ls')) ∧
  (∀ rnd now userId,
     DB.processPurchase rnd now userId itemId ls'
       = (DB.failed "User or Item not found", ls')) ∧
  document (after (DB.deleteItem itemId) ls') = document ls'.
Proof.
  intros ls'.
  assert (Hitems : items (document ls')
                   = filter (λ i, Item.id i ≠ itemId) (items (document ls)))
    by apply deleteItem_items.
  assert (Hgone : list_find (λ i, Item.id i = itemId) (items (document ls')) = None).
  { apply list_find_None, Forall_forall. intros i Hi.
    rewrite Hitems in Hi. by apply list_elem_of_filter in Hi as [? _]. }
  split_and!.
  - subst ls'. unfold after, DB.deleteItem.
    by rewrite bind_run, getInitialState_run.
  - intros i Hi. rewrite getItems_document, Hitems in Hi.
    by apply list_elem_of_filter in Hi as [? _].
  - intros item <-. by rewrite updateItem_run, Hgone.
  - intros rnd now userId. rewrite processPurchase_run, Hgone.
    by destruct (list_find _ (users _)) as [[ui user]|].
  - subst ls'. rewrite !deleteItem_document. unfold withItems. simpl.
    rewrite list_filter_filter. f_equal. apply list_filter_iff. intros i. tauto.
Qed.

(** ** Tickets *)

Lemma addTicketMessage_run now ticketId message ls :
  DB.addTicketMessage now ticketId message ls
    = (tt, written
             (match list_find (λ t, Ticket.id t = ticketId) (tickets (document ls)) with
              | Some (ti, _) =>
                  withTickets
                    (alter (Ticket.pushMessage message now) ti (tickets (document ls)))
                    (document ls)
              | None => document ls
              end) ls).
Proof.
  unfold DB.addTicketMessage. rewrite bind_run, getInitialState_run. simpl.
  by destruct (list_find _ _) as [[ti tk]|].
Qed.

Lemma closeTicket_run now ticketId ls :
  DB.closeTicket now ticketId ls
    = (tt, written
             (match list_find (λ t, Ticket.id t = ticketId) (tickets (document ls)) with
              | Some (ti, _) =>
                  withTickets (alter (Ticket.close now) ti (tickets (document ls)))
                    (document ls)
              | None => document ls
              end) ls).
Proof.
  unfold DB.closeTicket. rewrite bind_run, getInitialState_run. simpl.
  by destruct (list_find _ _) as [[ti tk]|].
Qed.

(** X14. [addTicketMessage] always writes exactly once.  When no ticket has
    the id the document written is the one read.  Otherwise the first ticket
    with the id gets the message added after its messages and [now] as its
    last update; its status is kept whatever it is, so a closed ticket takes
    messages too; every other ticket and collection is as it was. *)
Theorem addTicketMessage_appends_to_first_match_and_always_writes
    (now : Z) (ticketId : string) (message : TicketMessage.t) (ls : LocalStorage) :
  let ls' := after (DB.addTicketMessage now ticketId message) ls in
  setItemCalls ls' = S (setItemCalls ls) ∧
  (list_find (λ t, Ticket.id t = ticketId) (tickets (document ls)) = None →
   document ls' = document ls) ∧
  (∀ ti tk,
     list_find (λ t, Ticket.id t = ticketId) (tickets (document ls)) = Some (ti, tk) →
     document ls'
       = withTickets
           (<[ti := Ticket.mk (Ticket.id tk) (Ticket.messages tk ++ [message])
                      (Ticket.status tk) now]> (tickets (document ls)))
           (document ls)).
Proof.
  unfold after. rewrite addTicketMessage_run. simpl. split_and!; [done| |].
  - by intros ->.
  - intros ti tk Hfind. rewrite Hfind, document_of_written.
    erewrite alter_as_insert; [reflexivity|]. by eapply list_find_lookup.
Qed.

Lemma addTicketMessage_witness :
  tickets (document (after (DB.addTicketMessage 9 "T2" (TicketMessage.mk "still?" "U" 9))
                       helpDesk)) !! 1
    = Some (Ticket.mk "T2" [TicketMessage.mk "still?" "U" 9] CLOSED 9).
Proof.
  destruct (addTicketMessage_appends_to_first_match_and_always_writes
              9 "T2" (TicketMessage.mk "still?" "U" 9) helpDesk) as (_ & _ & Hfound).
  by rewrite (Hfound 1 (Ticket.mk "T2" [] CLOSED 6) eq_refl).
Defined.

(** X15. [closeTicket] always writes exactly once.  When no ticket has the
    id the document written is the one read.  Otherwise the first ticket with
    the id becomes CLOSED with [now] as its last update and its messages as
    they were.  Closing a ticket again changes its last update only: two
    calls leave the document that the second call alone leaves. *)
Theorem closeTicket_closes_first_match_and_always_writes
    (now : Z) (ticketId : string) (ls : LocalStorage) :
  let ls' := after (DB.closeTicket now ticketId) ls in
  setItemCalls ls' = S (setItemCalls ls) ∧
  (list_find (λ t, Ticket.id t = ticketId) (tickets (document ls)) = None →
   document ls' = document ls) ∧
  (∀ ti tk,
     list_find (λ t, Ticket.id t = ticketId) (tickets (document ls)) = Some (ti, tk) →
     document ls'
       = withTickets
           (<[ti := Ticket.mk (Ticket.id tk) (Ticket.messages tk) CLOSED now]>
              (tickets (document ls)))
           (document ls)) ∧
  (∀ earlier,
     document (after (DB.closeTicket now ticketId)
                 (after (DB.closeTicket earlier ticketId) ls))
       = document ls').
Proof.
  unfold after. rewrite !closeTicket_run. simpl. split_and!; [done| | |].
  - by intros ->.
  - intros ti tk Hfind. rewrite Hfind, document_of_written.
    erewrite alter_as_insert; [reflexivity|]. by eapply list_find_lookup.
  - intros earlier. rewrite !closeTicket_run. simpl. rewrite !document_of_written.
    destruct (list_find _ (tickets (document ls))) as [[ti tk]|] eqn:Hfind.
    + simpl. erewrite list_find_alter_keep; [|done|].
      * unfold withTickets. simpl. by rewrite list_alter_alter_eq.
      * simpl. by eapply (list_find_holds (λ t, Ticket.id t = ticketId)).
    + by rewrite Hfind.
Qed.

Lemma closeTicket_witness :
  tickets (document (after (DB.closeTicket 8 "T1") helpDesk)) !! 0
    = Some (Ticket.mk "T1" [TicketMessage.mk "hello" "U" 5] CLOSED 8).
Proof.
  destruct (closeTicket_closes_first_match_and_always_writes 8 "T1" helpDesk)
    as (_ & _ & Hfound & _).
  by rewrite (Hfound 0 (Ticket.mk "T1" [TicketMessage.mk "hello" "U" 5] OPEN 5) eq_refl).
Defined.

(** ** updateTransactionStatus, frame *)

(** X19. [updateTransactionStatus] always writes exactly once.  For an id
    that no transaction has, the document written is the one read, whatever
    the status.  Otherwise the first transaction with the id gets the status
    given, whatever status it had (any status may follow any other), every
    other transaction is as it was, and items, purchases, redeem codes and
    tickets are untouched. *)
Theorem updateTransactionStatus_overwrites_status_and_always_writes
    (id : string) (status : TransactionStatus) (ls : LocalStorage) :
  let ls' := after (DB.updateTransactionStatus id status) ls in
  setItemCalls ls' = S (setItemCalls ls) ∧
  (list_find (λ t, Transaction.id t = id) (transactions (document ls)) = None →
   document ls' = document ls) ∧
  (∀ ti tx,
     list_find (λ t, Transaction.id t = id) (transactions (document ls))
       = Some (ti, tx) →
     transactions (document ls')
       = <[ti := Transaction.mk (Transaction.id tx) (Transaction.userId tx)
                   (Transaction.amount tx) status]> (transactions (document ls)) ∧
     items (document ls') = items (document ls) ∧
     purchases (document ls') = purchases (document ls) ∧
     redeemCodes (document ls') = redeemCodes (document ls) ∧
     tickets (document ls') = tickets (document ls)).
Proof.
  unfold after. rewrite updateTransactionStatus_run. simpl.
  unfold statusUpdated. split_and!; [done| |].
  - by intros ->.
  - intros ti tx Hfind. rewrite Hfind. simpl.
    assert (Halter : alter (Transaction.withStatus status) ti (transactions (document ls))
                     = <[ti := Transaction.withStatus status tx]>
                         (transactions (document ls))).
    { apply alter_as_insert. by eapply list_find_lookup. }
    destruct (decide (status = APPROVED));
      [destruct (list_find _ (users _)) as [[ui user]|]|]; simpl;
      by rewrite Halter.
Qed.

Lemma updateTransactionStatus_witness :
  transactions (document (after (DB.updateTransactionStatus "t1" REJECTED) topUpShop))
    = [Transaction.mk "t1" "U" 25 REJECTED; Transaction.mk "t2" "ghost" 9 PENDING].
Proof.
  destruct (updateTransactionStatus_overwrites_status_and_always_writes
              "t1" REJECTED topUpShop) as (_ & _ & Hfound).
  destruct (Hfound 0 (Transaction.mk "t1" "U" 25 PENDING) eq_refl) as (Htx & _).
  by rewrite Htx.
Defined.

(** ** processPurchase, what a success leaves *)



(** X17. A successful [processPurchase] of a SEQUENTIAL item raises the
    item's delivered count by one and the number of its units marked as
    delivered by one, and keeps the number of units.  So a delivered count
    that equals the number of delivered units still equals it afterwards. *)
Theorem sequential_purchase_counts_one_delivery
    (rnd : string) (now : Z) (userId itemId : string) (ls : LocalStorage)
    (ui : nat) (user : User.t) (ii : nat) (item : Item.t) :
  found userId itemId (document ls) ui user ii item →
  Item.type item = SEQUENTIAL →
  p_success (result (DB.processPurchase rnd now userId itemId) ls) = true →
  ∃ item',
    items (document (after (DB.processPurchase rnd now userId itemId) ls)) !! ii
      = Some item' ∧
    Item.deliveredCount item' = (Item.deliveredCount item + 1)%Z ∧
    deliveredUnits item' = S (deliveredUnits item) ∧
    length (default [] (Item.sequentialItems item'))
      = length (default [] (Item.sequentialItems item)) ∧
    (Item.deliveredCount item = Z.of_nat (deliveredUnits item) →
     Item.deliveredCount item' = Z.of_nat (deliveredUnits item')).
Proof.
  intros [Hu Hi] Htype. unfold result, after.
  rewrite processPurchase_run, Hu, Hi.
  destruct (decide _); [done|].
  unfold DB.takeContent. rewrite Htype.
  destruct (Item.sequentialItems item) as [units|] eqn:Hunits; [|done].
  destruct (list_find _ units) as [[k available]|] eqn:Hfind; [|done].
  intros _. simpl.
  apply list_find_Some in Hfind as (Hk & Hfresh & _).
  pose proof (filter_length_alter (λ si, SequentialItem.isDelivered si = true)
                SequentialItem.deliver _ _ _ Hk) as Hcount.
  rewrite decide_False in Hcount by congruence.
  rewrite decide_True in Hcount by done.
  eexists. split.
  { apply list_lookup_insert_eq. eapply lookup_lt_Some, list_find_lookup, Hi. }
  unfold deliveredUnits. simpl. rewrite Hunits. simpl.
  split_and!; [done|lia|apply length_alter|lia].
Qed.

Lemma sequential_purchase_counts_witness :
  ∃ item',
    items (document (after (DB.processPurchase "p1" 1 "U" "K") keyShop)) !! 0
      = Some item' ∧
    Item.deliveredCount item' = 1%Z ∧ deliveredUnits item' = 1.
Proof.
  destruct (sequential_purchase_counts_one_delivery "p1" 1 "U" "K" keyShop
              0 (User.mk "U" USER 30) 0
              (Item.mk "K" "licence" 10 SEQUENTIAL None
                 (Some [SequentialItem.mk "AAA" false; SequentialItem.mk "BBB" false]) 0))
    as (item' & Hitem & Hcount & Hunits & _).
  - by vm_compute.
  - reflexivity.
  - reflexivity.
  - exists item'. split_and!; [exact Hitem | exact Hcount | exact Hunits].
Defined.

(** X22. Which failure [processPurchase] reports: 'User or Item not found'
    exactly when one of the two lookups finds nothing; 'Insufficient
    credits' exactly when both find a record and the user's credits are
    below the price, whether or not the item is in stock; 'Out of stock'
    exactly when both find a record, the credits cover the price and the item
    is not in stock. *)
Theorem processPurchase_reports_first_failed_check
    (rnd : string) (now : Z) (userId itemId : string) (ls : LocalStorage) :
  let r := result (DB.processPurchase rnd now userId itemId) ls in
  (r = DB.failed "User or Item not found" ↔
     list_find (λ u, User.id u = userId) (users (document ls)) = None ∨
     list_find (λ i, Item.id i = itemId) (items (document ls)) = None) ∧
  (r = DB.failed "Insufficient credits" ↔
     ∃ ui user ii item,
       found userId itemId (document ls) ui user ii item ∧
       (User.credits user < Item.price item)%Z) ∧
  (r = DB.failed "Out of stock" ↔
     ∃ ui user ii item,
       found userId itemId (document ls) ui user ii item ∧
       (Item.price item ≤ User.credits user)%Z ∧ ¬ inStock item).
Proof.
  unfold found, result. rewrite processPurchase_run.
  destruct (list_find _ (users _)) as [[ui user]|] eqn:Hu;
    [destruct (list_find _ (items _)) as [[ii item]|] eqn:Hi|]; simpl.
  - destruct (decide _) as [Hlt|Hge]; simpl.
    + split_and!; split.
      * done.
      * by intros [?|?].
      * intros _. by exists ui, user, ii, item.
      * done.
      * done.
      * intros (? & ? & ? & ? & [[= <- <-] [= <- <-]] & ? & _). lia.
    + destruct (DB.takeContent item) as [[content item']|] eqn:Htake; simpl.
      * split_and!; split.
        -- done.
        -- by intros [?|?].
        -- done.
        -- intros (? & ? & ? & ? & [[= <- <-] [= <- <-]] & ?). lia.
        -- done.
        -- intros (? & ? & ? & ? & [_ [= <- <-]] & _ & Hout).
           destruct Hout. apply takeContent_inStock. by rewrite Htake.
      * split_and!; split.
        -- done.
        -- by intros [?|?].
        -- done.
        -- intros (? & ? & ? & ? & [[= <- <-] [= <- <-]] & ?). lia.
        -- intros _. exists ui, user, ii, item. split_and!; [done..|lia|].
           intros Hin. apply takeContent_inStock in Hin. rewrite Htake in Hin.
           by destruct Hin.
        -- done.
  - split_and!; split.
    + intros _. by right.
    + done.
    + done.
    + by intros (? & ? & ? & ? & [_ ?] & _).
    + done.
    + by intros (? & ? & ? & ? & [_ ?] & _).
  - split_and!; split.
    + intros _. by left.
    + done.
    + done.
    + by intros (? & ? & ? & ? & [? _] & _).
    + done.
    + by intros (? & ? & ? & ? & [? _] & _).
Qed.

(** ** Credits in total *)

Lemma totalCredits_alter (f : User.t → User.t) (us : list User.t) i u :
  us !! i = Some u →
  totalCredits (alter f i us)
    = (totalCredits us - User.credits u + User.credits (f u))%Z.
Proof.
  revert i. induction us as [|v us IH]; intros [|i] Hi; simplify_eq/=.
  - lia.
  - rewrite (IH i Hi). lia.
Qed.

(** X18. As long as the balance of the user concerned, the amount and the
    new balance are whole numbers of magnitude at most 2^53, the credits of
    all users together change by the amount of the operation and by nothing
    else: a successful [processPurchase] lowers them by the price of the item
    found, a successful [redeem] raises them by the amount it returns, and an
    approval raises them by the amount of the transaction found when its user
    is stored. *)
Theorem total_credits_change_by_the_amount (ls : LocalStorage) :
  (∀ rnd now userId itemId ui user ii item,
     found userId itemId (document ls) ui user ii item →
     p_success (result (DB.processPurchase rnd now userId itemId) ls) = true →
     exact (User.credits user) → exact (Item.price item) →
     exact (User.credits user - Item.price item) →
     totalCredits (users (document (after (DB.processPurchase rnd now userId itemId) ls)))
       = (totalCredits (users (document ls)) - Item.price item)%Z) ∧
  (∀ userId codeStr ui user amount,
     list_find (λ u, User.id u = userId) (users (document ls)) = Some (ui, user) →
     r_amount (result (DB.redeem userId codeStr) ls) = Some amount →
     exact (User.credits user) → exact amount → exact (User.credits user + amount) →
     totalCredits (users (document (after (DB.redeem userId codeStr) ls)))
       = (totalCredits (users (document ls)) + amount)%Z) ∧
  (∀ id ti tx ui user,
     list_find (λ t, Transaction.id t = id) (transactions (document ls))
       = Some (ti, tx) →
     list_find (λ u, User.id u = Transaction.userId tx) (users (document ls))
       = Some (ui, user) →
     exact (User.credits user) → exact (Transaction.amount tx) →
     exact (User.credits user + Transaction.amount tx) →
     totalCredits (users (document (after (DB.updateTransactionStatus id APPROVED) ls)))
       = (totalCredits (users (document ls)) + Transaction.amount tx)%Z).
Proof.
  split_and!.
  - intros rnd now userId itemId ui user ii item [Hu Hi]. unfold result, after.
    rewrite processPurchase_run, Hu, Hi.
    destruct (decide _); [done|].
    destruct (DB.takeContent item) as [[content item']|] eqn:Htake; [|done].
    destruct (takeContent_fields _ _ _ Htake) as (_ & _ & Hprice & _).
    intros _ _ _ _. simpl.
    rewrite (totalCredits_alter _ _ _ _ (list_find_lookup _ _ _ _ Hu)), Hprice.
    simpl. lia.
  - intros userId codeStr ui user amount Hu. unfold result, after. rewrite redeem_run, Hu.
    destruct (list_find _ (redeemCodes _)) as [[ci code]|]; [|done].
    simpl. intros [= <-] _ _ _.
    rewrite (totalCredits_alter _ _ _ _ (list_find_lookup _ _ _ _ Hu)).
    simpl. lia.
  - intros id ti tx ui user Htx Hu _ _ _. unfold after.
    rewrite updateTransactionStatus_run. simpl. unfold statusUpdated.
    rewrite Htx. simpl. rewrite Hu. simpl.
    rewrite (totalCredits_alter _ _ _ _ (list_find_lookup _ _ _ _ Hu)).
    simpl. lia.
Qed.

Lemma total_credits_witness :
  totalCredits (users (document (after (DB.updateTransactionStatus "t1" APPROVED)
                                   topUpShop)))
    = 39%Z.
Proof.
  destruct (total_credits_change_by_the_amount topUpShop) as (_ & _ & Happroval).
  rewrite (Happroval "t1" 0 (Transaction.mk "t1" "U" 25 PENDING) 0
             (User.mk "U" USER 10) eq_refl eq_refl);
    unfold exact; simpl; lia.
Defined.

(** ** Instant items *)



(** ** updateItem, round trip *)

(** X23. After an [updateItem] that returned [true], the lookup by the id
    returns the item given, at the position of the record it replaced, and a
    second [updateItem] with the same item returns [true] again and stores
    the same document. *)
Theorem updated_item_is_found_and_update_is_idempotent
    (item : Item.t) (ls : LocalStorage) :
  result (DB.updateItem item) ls = true →
  let ls' := after (DB.updateItem item) ls in
  (∃ index old,
     list_find (λ i, Item.id i = Item.id item) (items (document ls))
       = Some (index, old) ∧
     list_find (λ i, Item.id i = Item.id item) (items (document ls'))
       = Some (index, item)) ∧
  result (DB.updateItem item) ls' = true ∧
  document (after (DB.updateItem item) ls') = document ls'.
Proof.
  unfold result, after. rewrite updateItem_run.
  destruct (list_find _ _) as [[index old]|] eqn:Hfind; [|done]. intros _.
  cbn [fst snd].
  assert (Hagain : list_find (λ i, Item.id i = Item.id item)
                     (<[index := item]> (items (document ls)))
                   = Some (index, item))
    by by apply (list_find_insert_keep (λ i, Item.id i = Item.id item) _ _ old).
  rewrite updateItem_run, !document_written. simpl. rewrite Hagain. simpl.
  split_and!; [by eauto|done|].
  unfold withItems. simpl. by rewrite list_insert_insert_eq.
Qed.

Lemma updated_item_witness :
  result (DB.updateItem (Item.mk "I" "voucher" 25 INSTANT (Some "NEW") None 0))
    (after (DB.updateItem (Item.mk "I" "voucher" 25 INSTANT (Some "NEW") None 0))
       instantShop)
  = true.
Proof.
  apply (updated_item_is_found_and_update_is_idempotent
           (Item.mk "I" "voucher" 25 INSTANT (Some "NEW") None 0) instantShop).
  reflexivity.
Defined.

(** ** A medium without the key *)

(** X24. On a medium without the key, the operations that can fail do so
    without creating it: [redeem] reports 'User not found',
    [processPurchase] 'User or Item not found' and [updateItem] [false].
    The operations that save unconditionally create the key with the empty
    document although they changed nothing: [updateUserCredits],
    [deleteItem], [updateTransactionStatus], [addTicketMessage] and
    [closeTicket]. *)
Theorem absent_key_failures_do_not_write_but_blind_updates_do (ls : LocalStorage) :
  stored ls = None →
  (∀ userId codeStr, DB.redeem userId codeStr ls = (DB.refused "User not found", ls)) ∧
  (∀ rnd now userId itemId,
     DB.processPurchase rnd now userId itemId ls
       = (DB.failed "User or Item not found", ls)) ∧
  (∀ item, DB.updateItem item ls = (false, ls)) ∧
  (∀ userId amount,
     after (DB.updateUserCredits userId amount) ls = written emptyState ls) ∧
  (∀ itemId, after (DB.deleteItem itemId) ls = written emptyState ls) ∧
  (∀ id status,
     after (DB.updateTransactionStatus id status) ls = written emptyState ls) ∧
  (∀ now ticketId message,
     after (DB.addTicketMessage now ticketId message) ls = written emptyState ls) ∧
  (∀ now ticketId, after (DB.closeTicket now ticketId) ls = written emptyState ls).
Proof.
  intros Habsent.
  assert (Hdoc : document ls = emptyState) by (unfold document; by rewrite Habsent).
  unfold after. split_and!; intros.
  - by rewrite redeem_run, Hdoc.
  - by rewrite processPurchase_run, Hdoc.
  - by rewrite updateItem_run, Hdoc.
  - by rewrite updateUserCredits_run, Hdoc.
  - unfold DB.deleteItem. by rewrite bind_run, getInitialState_run, Hdoc.
  - by rewrite updateTransactionStatus_run, Hdoc.
  - by rewrite addTicketMessage_run, Hdoc.
  - by rewrite closeTicket_run, Hdoc.
Qed.

Lemma absent_key_failures_witness :
  after (DB.closeTicket 3 "T1") (mkLocalStorage None 0)
    = mkLocalStorage (Some emptyState) 1.
Proof.
  by destruct (absent_key_failures_do_not_write_but_blind_updates_do
                 (mkLocalStorage None 0) eq_refl)
    as (_ & _ & _ & _ & _ & _ & _ & ->).
Defined.

(** ** verifyUser *)

(** X25. [verifyUser] accepts every token but the empty one: it succeeds,
    without an error, exactly when the token is not the empty string, and
    otherwise reports 'Invalid or expired verification token'. *)
Theorem verifyUser_accepts_every_non_empty_token (token : string) :
  (v_success (DB.verifyUser token) = true ↔ token ≠ "") ∧
  (token ≠ "" → DB.verifyUser token = mkVerifyResult true None) ∧
  (token = "" →
   DB.verifyUser token
     = mkVerifyResult false (Some "Invalid or expired verification token")).
Proof.
  unfold DB.verifyUser.
  destruct token as [|a token]; case_decide; simpl in *; try lia;
    split_and!; [split|..]; done.
Qed.

(** ** A record stored under a taken id *)

Section inert.
Context {A : Type} (key : A → string) (x : A).

Lemma find_inert la lb l0 l1 k :
  inertAt key x la lb l0 l1 →
  list_find (λ y, key y = k) l1
    = prod_map (shiftPast (length la)) id <$> list_find (λ y, key y = k) l0.
Proof.
  intros (-> & -> & old & Hold & Hkey).
  destruct (list_find (λ y, key y = k) la) as [[i y]|] eqn:Hla.
  - rewrite (list_find_app_l _ la lb _ _ Hla), (list_find_app_l _ la (x :: lb) _ _ Hla).
    simpl. unfold shiftPast. rewrite decide_True; [done|].
    eapply lookup_lt_Some, list_find_lookup, Hla.
  - assert (Hx : key x ≠ k).
    { intros Hk. apply list_find_None in Hla.
      eapply Forall_forall in Hla; [|exact Hold]. simpl in Hla. congruence. }
    rewrite !list_find_app_r by done. simpl. rewrite decide_False by done.
    destruct (list_find _ lb) as [[j y]|]; [|done]. simpl.
    unfold shiftPast. rewrite decide_False by lia. do 2 f_equal.
Qed.

Lemma alter_inert (f : A → A) la lb l0 l1 i y :
  inertAt key x la lb l0 l1 →
  l0 !! i = Some y → key (f y) = key y →
  ∃ la' lb',
    inertAt key x la' lb' (alter f i l0) (alter f (shiftPast (length la) i) l1).
Proof.
  intros (-> & -> & old & Hold & Hkey) Hi Hf. unfold shiftPast.
  destruct (decide (i < length la)) as [Hlt|Hge].
  - exists (alter f i la), lb. rewrite !alter_app_l by done.
    split_and!; [done..|].
    rewrite lookup_app_l in Hi by done.
    apply list_elem_of_lookup in Hold as [j Hj].
    destruct (decide (i = j)) as [->|Hne].
    + exists (f y). split; [|congruence].
      apply list_elem_of_lookup. exists j. by rewrite list_lookup_alter_eq, Hi.
    + exists old. split; [|done].
      apply list_elem_of_lookup. exists j. by rewrite list_lookup_alter_ne.
  - exists la, (alter f (i - length la) lb).
    rewrite !alter_app_r_alt by lia.
    replace (S i - length la) with (S (i - length la)) by lia.
    split_and!; [done..|]. eauto.
Qed.

Lemma insert_inert la lb l0 l1 i y z :
  inertAt key x la lb l0 l1 →
  l0 !! i = Some y → key z = key y →
  ∃ la' lb',
    inertAt key x la' lb' (<[i := z]> l0) (<[shiftPast (length la) i := z]> l1).
Proof.
  intros Hin Hi Hz. rewrite !list_insert_alter. by eapply alter_inert.
Qed.

Lemma app_inert la lb l0 l1 z :
  inertAt key x la lb l0 l1 →
  ∃ la' lb', inertAt key x la' lb' (l0 ++ [z]) (l1 ++ [z]).
Proof.
  intros (-> & -> & Hold). exists la, (lb ++ [z]).
  split_and!; [by rewrite app_assoc|by rewrite <- app_assoc|done].
Qed.

Lemma filter_inert la lb l0 l1 d :
  inertAt key x la lb l0 l1 →
  inertIn key x (filter (λ y, key y ≠ d) l0) (filter (λ y, key y ≠ d) l1).
Proof.
  intros (-> & -> & old & Hold & Hkey). rewrite !filter_app, filter_cons.
  destruct (decide (key x ≠ d)) as [Hne|Heq]; [right|by left].
  eexists _, _. split_and!; [done..|]. exists old. split; [|done].
  apply list_elem_of_filter. split; [congruence|done].
Qed.
End inert.

(** Rewrites the medium a call leaves into the document it stores. *)
Ltac unfold_call :=
  simpl perform; rewrite ?after_void; unfold after;
  rewrite ?updateItem_run, ?processPurchase_run, ?redeem_run,
    ?updateTransactionStatus_run, ?updateUserCredits_run, ?addTicketMessage_run,
    ?closeTicket_run;
  unfold statusUpdated, DB.getUsers, DB.getItems, DB.getPurchases,
    DB.getTransactions, DB.getRedeemCodes, DB.getTickets, DB.addUser,
    DB.addItem, DB.deleteItem, DB.addPurchase, DB.addTransaction,
    DB.addRedeemCode, DB.createTicket;
  rewrite ?bind_run, ?getInitialState_run; cbn [fst snd].

Ltac destruct_matches :=
  repeat match goal with
    | |- context [match ?x with _ => _ end] => destruct x as [[? ?]|]; simpl
    | |- context [if ?x then _ else _] => destruct x; simpl
    end.

(** What a call stores depends on the document it reads only. *)
Lemma perform_document c a b :
  document a = document b →
  document (after (perform c) a) = document (after (perform c) b).
Proof.
  intros Hdoc. destruct c; unfold_call; rewrite ?Hdoc; destruct_matches;
    unfold written; simpl; by rewrite ?Hdoc.
Qed.

Lemma sameButItem_equal x a b :
  sameButItem x (document a) (document b) →
  items (document b) = items (document a) →
  document a = document b.
Proof.
  intros (? & ? & ? & ? & ? & _) ?.
  destruct (document a), (document b); simpl in *; congruence.
Qed.

Lemma sameButItem_refl x doc : sameButItem x doc doc.
Proof. split_and!; [done..|by left]. Qed.

Lemma perform_sameButItem x c a b :
  sameButItem x (document a) (document b) →
  sameButItem x (document (after (perform c) a)) (document (after (perform c) b)).
Proof.
  intros Hsame.
  destruct Hsame as (Hu & Hp & Ht & Hc & Htk & [Heq|(la & lb & Hin)]).
  { rewrite (perform_document c a b); [apply sameButItem_refl|].
    apply (sameButItem_equal x); [|done]. split_and!; [done..|by left]. }
  assert (Hkeep : inertIn Item.id x (items (document a)) (items (document b)))
    by (right; eauto).
  destruct c;
    try solve [ unfold_call; unfold sameButItem;
                rewrite ?Hu, ?Hp, ?Ht, ?Hc, ?Htk; destruct_matches;
                unfold written, withUsers, withItems, withPurchases,
                  withTransactions, withRedeemCodes, withTickets; simpl;
                rewrite ?Hu, ?Hp, ?Ht, ?Hc, ?Htk; split_and!; done ].
  - (* addItem *)
    unfold_call. unfold sameButItem. simpl. split_and!; [done..|].
    right. by eapply app_inert.
  - (* updateItem *)
    unfold_call. rewrite (find_inert Item.id x _ _ _ _ (Item.id item) Hin).
    destruct (list_find _ (items (document a))) as [[i y]|] eqn:Hfind; simpl.
    + unfold sameButItem. simpl. split_and!; [done..|].
      right. eapply insert_inert; [done|by eapply list_find_lookup|].
      symmetry. by eapply (list_find_holds (λ i, Item.id i = Item.id item)).
    + by split_and!.
  - (* deleteItem *)
    unfold_call. unfold sameButItem. simpl. split_and!; [done..|].
    by eapply filter_inert.
  - (* processPurchase *)
    unfold_call. rewrite <- Hu, (find_inert Item.id x _ _ _ _ itemId Hin).
    destruct (list_find _ (users (document a))) as [[ui user]|]; [|by split_and!].
    destruct (list_find _ (items (document a))) as [[i y]|] eqn:Hfind; simpl;
      [|by split_and!].
    destruct (decide _); [by split_and!|].
    destruct (DB.takeContent y) as [[content y']|] eqn:Htake; [|by split_and!].
    destruct (takeContent_fields _ _ _ Htake) as (Hid & _).
    unfold sameButItem. simpl. rewrite <- Hp. split_and!; [done..|].
    right. eapply insert_inert; [done|by eapply list_find_lookup|done].
Qed.

Lemma results_sameButItem x a b :
  sameButItem x (document a) (document b) →
  (∀ rnd now userId itemId,
     result (DB.processPurchase rnd now userId itemId) b
       = result (DB.processPurchase rnd now userId itemId) a) ∧
  (∀ item, result (DB.updateItem item) b = result (DB.updateItem item) a).
Proof.
  intros (Hu & Hp & Ht & Hc & Htk & [Heq|(la & lb & Hin)]).
  - split; intros; unfold result;
      rewrite ?processPurchase_run, ?updateItem_run, <- ?Hu, ?Heq; destruct_matches;
      done.
  - split.
    + intros rnd now userId itemId. unfold result.
      rewrite !processPurchase_run, <- Hu, (find_inert Item.id x _ _ _ _ itemId Hin).
      destruct (list_find _ (users (document a))) as [[ui user]|]; [|done].
      destruct (list_find _ (items (document a))) as [[i y]|]; simpl; [|done].
      destruct (decide _); [done|].
      by destruct (DB.takeContent y) as [[content y']|].
    + intros item. unfold result.
      rewrite !updateItem_run, (find_inert Item.id x _ _ _ _ (Item.id item) Hin).
      by destruct (list_find _ (items (document a))) as [[i y]|].
Qed.

Lemma performAll_sameButItem x cs a b :
  sameButItem x (document a) (document b) →
  sameButItem x (document (after (performAll cs) a))
    (document (after (performAll cs) b)).
Proof.
  revert a b. induction cs as [|c cs IH]; intros a b Hsame; [done|].
  rewrite !performAll_cons. by apply IH, perform_sameButItem.
Qed.

(** X12. [addItem] does not check the id, and an item added under an id that
    a stored item already has is never reached.  Run any sequence of calls
    after the [addItem] and the same sequence without it: the two documents
    have the same users, purchases, transactions, redeem codes and tickets;
    the items are the same too, but for the added item, which sits unchanged
    behind an item with its id, or is gone with it after a [deleteItem]; and
    every [processPurchase] and every [updateItem] returns the same in both
    states. *)
Theorem item_added_under_a_taken_id_is_never_reached
    (item : Item.t) (cs : list Call) (ls : LocalStorage) :
  (∃ old, old ∈ items (document ls) ∧ Item.id old = Item.id item) →
  let without := after (performAll cs) ls in
  let within := after (performAll cs) (after (DB.addItem item) ls) in
  users (document within) = users (document without) ∧
  purchases (document within) = purchases (document without) ∧
  transactions (document within) = transactions (document without) ∧
  redeemCodes (document within) = redeemCodes (document without) ∧
  tickets (document within) = tickets (document without) ∧
  (items (document within) = items (document without) ∨
   ∃ la lb,
     items (document without) = la ++ lb ∧
     items (document within) = la ++ item :: lb ∧
     ∃ old, old ∈ la ∧ Item.id old = Item.id item) ∧
  (∀ rnd now userId itemId,
     result (DB.processPurchase rnd now userId itemId) within
       = result (DB.processPurchase rnd now userId itemId) without) ∧
  (∀ item', result (DB.updateItem item') within = result (DB.updateItem item') without).
Proof.
  intros Htaken without within.
  assert (Hstart : sameButItem item (document ls) (document (after (DB.addItem item) ls))).
  { unfold after, DB.addItem. rewrite bind_run, getInitialState_run. simpl.
    split_and!; [done..|]. right. exists (items (document ls)), [].
    split_and!; [by rewrite app_nil_r|done|done]. }
  pose proof (performAll_sameButItem item cs _ _ Hstart) as Hend.
  fold without within in Hend.
  destruct (results_sameButItem item _ _ Hend) as [Hbuy Hupdate].
  destruct Hend as (Hu & Hp & Ht & Hc & Htk & Hitems).
  split_and!; [done..| |done|done].
  destruct Hitems as [?|(la & lb & ? & ? & ?)]; [by left|right; eauto].
Qed.

Lemma item_added_under_a_taken_id_witness :
  result (DB.processPurchase "p2" 8 "U" "I")
    (after (performAll [ProcessPurchase "p1" 7 "U" "I"])
       (after (DB.addItem (Item.mk "I" "copy" 1 INSTANT (Some "FREE") None 0))
          instantShop))
  = result (DB.processPurchase "p2" 8 "U" "I")
      (after (performAll [ProcessPurchase "p1" 7 "U" "I"]) instantShop).
Proof.
  refine (proj1 (proj2 (proj2 (proj2 (proj2 (proj2 (proj2
           (item_added_under_a_taken_id_is_never_reached
              (Item.mk "I" "copy" 1 INSTANT (Some "FREE") None 0)
              [ProcessPurchase "p1" 7 "U" "I"] instantShop _)))))))
           "p2" 8%Z "U" "I").
  exists (Item.mk "I" "voucher" 30 INSTANT (Some "CODE123") None 0).
  split; [apply list_elem_of_here | reflexivity].
Defined.

Lemma perform_sameButUser x c a b :
  sameButUser x (document a) (document b) →
  sameButUser x (document (after (perform c) a)) (document (after (perform c) b)).
Proof.
  intros (Hi & Hp & Ht & Hc & Htk & la & lb & Hin).
  assert (Hkeep : ∃ la lb, inertAt User.id x la lb (users (document a))
                             (users (document b))) by eauto.
  destruct c;
    try solve [ unfold_call; unfold sameButUser;
                rewrite ?Hi, ?Hp, ?Ht, ?Hc, ?Htk; destruct_matches;
                unfold written, withUsers, withItems, withPurchases,
                  withTransactions, withRedeemCodes, withTickets; simpl;
                rewrite ?Hi, ?Hp, ?Ht, ?Hc, ?Htk; split_and!; done ].
  - (* addUser *)
    unfold_call. unfold sameButUser. simpl. split_and!; [done..|].
    by eapply app_inert.
  - (* updateUserCredits *)
    unfold_call. rewrite (find_inert User.id x _ _ _ _ userId Hin).
    destruct (list_find _ (users (document a))) as [[i y]|] eqn:Hfind; simpl.
    + unfold sameButUser. simpl. split_and!; [done..|].
      eapply alter_inert; [done|by eapply list_find_lookup|done].
    + by split_and!.
  - (* processPurchase *)
    unfold_call. rewrite <- Hi, (find_inert User.id x _ _ _ _ userId Hin).
    destruct (list_find _ (users (document a))) as [[i y]|] eqn:Hfind; simpl;
      [|by split_and!].
    destruct (list_find _ (items (document a))) as [[ii item]|]; [|by split_and!].
    destruct (decide _); [by split_and!|].
    destruct (DB.takeContent item) as [[content item']|]; [|by split_and!].
    unfold sameButUser. simpl. rewrite <- Hp. split_and!; [done..|].
    eapply alter_inert; [done|by eapply list_find_lookup|done].
  - (* updateTransactionStatus *)
    unfold_call. rewrite <- Ht.
    destruct (list_find _ (transactions (document a))) as [[ti tx]|];
      [|by split_and!].
    simpl. destruct (decide _); [|by split_and!].
    rewrite (find_inert User.id x _ _ _ _ (Transaction.userId tx) Hin).
    destruct (list_find _ (users (document a))) as [[i y]|] eqn:Hfind; simpl.
    + unfold sameButUser. simpl. split_and!; [done..|].
      eapply alter_inert; [done|by eapply list_find_lookup|done].
    + unfold sameButUser. simpl. by split_and!.
  - (* redeem *)
    unfold_call. rewrite <- Hc, (find_inert User.id x _ _ _ _ userId Hin).
    destruct (list_find _ (users (document a))) as [[i y]|] eqn:Hfind; simpl;
      [|by split_and!].
    destruct (list_find _ (redeemCodes (document a))) as [[ci code]|];
      [|by split_and!].
    unfold sameButUser. simpl. split_and!; [done..|].
    eapply alter_inert; [done|by eapply list_find_lookup|done].
Qed.

Lemma results_sameButUser x a b :
  sameButUser x (document a) (document b) →
  (∀ rnd now userId itemId,
     result (DB.processPurchase rnd now userId itemId) b
       = result (DB.processPurchase rnd now userId itemId) a) ∧
  (∀ userId codeStr,
     result (DB.redeem userId codeStr) b = result (DB.redeem userId codeStr) a).
Proof.
  intros (Hi & Hp & Ht & Hc & Htk & la & lb & Hin). split.
  - intros rnd now userId itemId. unfold result.
    rewrite !processPurchase_run, <- Hi, (find_inert User.id x _ _ _ _ userId Hin).
    destruct (list_find _ (users (document a))) as [[i y]|]; simpl; [|done].
    destruct (list_find _ (items (document a))) as [[ii item]|]; [|done].
    destruct (decide _); [done|].
    by destruct (DB.takeContent item) as [[content item']|].
  - intros userId codeStr. unfold result.
    rewrite !redeem_run, <- Hc, (find_inert User.id x _ _ _ _ userId Hin).
    destruct (list_find _ (users (document a))) as [[i y]|]; simpl; [|done].
    by destruct (list_find _ (redeemCodes (document a))) as [[ci code]|].
Qed.

Lemma performAll_sameButUser x cs a b :
  sameButUser x (document a) (document b) →
  sameButUser x (document (after (performAll cs) a))
    (document (after (performAll cs) b)).
Proof.
  revert a b. induction cs as [|c cs IH]; intros a b Hsame; [done|].
  rewrite !performAll_cons. by apply IH, perform_sameButUser.
Qed.

(** X13. [addUser] does not check the id either, and a user added under an
    id that a stored user already has is never reached.  Run any sequence of
    calls after the [addUser] and the same sequence without it: the two
    documents have the same items, purchases, transactions, redeem codes and
    tickets; the users are the same too, but for the added user, who sits
    with unchanged credits behind a user with that id; and every
    [processPurchase] and every [redeem] returns the same in both states.
    So no purchase, redemption, approval or credit update ever touches the
    added record. *)
Theorem user_added_under_a_taken_id_is_never_reached
    (user : User.t) (cs : list Call) (ls : LocalStorage) :
  (∃ old, old ∈ users (document ls) ∧ User.id old = User.id user) →
  let without := after (performAll cs) ls in
  let within := after (performAll cs) (after (DB.addUser user) ls) in
  items (document within) = items (document without) ∧
  purchases (document within) = purchases (document without) ∧
  transactions (document within) = transactions (document without) ∧
  redeemCodes (document within) = redeemCodes (document without) ∧
  tickets (document within) = tickets (document without) ∧
  (∃ la lb,
     users (document without) = la ++ lb ∧
     users (document within) = la ++ user :: lb ∧
     ∃ old, old ∈ la ∧ User.id old = User.id user) ∧
  (∀ rnd now userId itemId,
     result (DB.processPurchase rnd now userId itemId) within
       = result (DB.processPurchase rnd now userId itemId) without) ∧
  (∀ userId codeStr,
     result (DB.redeem userId codeStr) within
       = result (DB.redeem userId codeStr) without).
Proof.
  intros Htaken without within.
  assert (Hstart : sameButUser user (document ls) (document (after (DB.addUser user) ls))).
  { unfold after, DB.addUser. rewrite bind_run, getInitialState_run. simpl.
    split_and!; [done..|]. exists (users (document ls)), [].
    split_and!; [by rewrite app_nil_r|done|done]. }
  pose proof (performAll_sameButUser user cs _ _ Hstart) as Hend.
  fold without within in Hend.
  destruct (results_sameButUser user _ _ Hend) as [Hbuy Hredeem].
  destruct Hend as (Hi & Hp & Ht & Hc & Htk & la & lb & Hin).
  split_and!; [done..| |done|done].
  destruct Hin as (? & ? & ?). eauto.
Qed.

Lemma user_added_under_a_taken_id_witness :
  result (DB.redeem "U" "SPRING5")
    (after (performAll [UpdateUserCredits "U" 5])
       (after (DB.addUser (User.mk "U" ADMIN 0)) redeemedShop))
  = result (DB.redeem "U" "SPRING5")
      (after (performAll [UpdateUserCredits "U" 5]) redeemedShop).
Proof.
  refine (proj2 (proj2 (proj2 (proj2 (proj2 (proj2 (proj2
           (user_added_under_a_taken_id_is_never_reached
              (User.mk "U" ADMIN 0) [UpdateUserCredits "U" 5] redeemedShop _)))))))
           "U" "SPRING5").
  exists (User.mk "U" USER 20). split; [apply list_elem_of_here | reflexivity].
Defined.
